(** * GitResultsManager: the bundled asynchronous process library

    A shallow embedding of the [asyncproc] part of [GitResultsManager.py]
    (the deadline guard [with_timeout], the class [Process] and the class
    [ProcessManager]) together with the properties of its behaviour.

    The Python code runs against the operating system: a clock, the one
    process-wide alarm timer, the [SIGALRM] disposition and the table of
    child processes.  That environment is the record [World]; the Python
    objects are ordinary records threaded through a state-and-exception
    monad.  Times are integer milliseconds; everything that is not a
    blocking system call takes no time.

    - A child process is known by when it exits if left alone and by
      how it reacts to a signal; closing its input is one of the things
      that make it exit at some time, so it needs no field of its own.
    - An alarm that is due at the very instant at which a blocked call
      would return wins: the call is cut short.
    - The code between [self._lock.acquire()] and
      [self._lock.release()] is one indivisible step.  The reader and
      feeder threads are not interleaved with a method; their turns
      are steps of their own ([Process._reader], [Process._feeder],
      and the calls [c_reader_out], [c_reader_err], [c_feeder]).

    The rest of the file is embedded as far as it is a function of what
    the system hands it: the class [OutputLogger] as a record whose
    methods return the calls they make on the console streams and on
    the log; the git helpers as functions of what the git command
    gave; and [GitResultsManager.start] up to the point where the run
    directory is created and named, as a function of what [os.stat],
    [os.mkdir], the clock and the git commands answer. *)

From stdpp Require Import gmap strings list pretty.

Open Scope Z_scope.

(** ** Exceptions and outcomes *)

Inductive Exn :=
| Timeout                (* asyncproc.Timeout *)
| SigAlarm (cls : nat)   (* the class SigAlarm local to one with_timeout call *)
| OSError (errno : Z)
| ValueError             (* "Writing to process with stdin not a pipe" *)
| KeyError (key : Z)
| IndexError.

(** Ways in which the interpreter stops without unwinding: it is
    terminated by a signal, or it stays blocked in a system call. *)
Inductive Halt :=
| Killed (sig : Z)
| Blocked.

Inductive Result (A : Type) :=
| Return (a : A)
| Raise (e : Exn)
| Stop (h : Halt).

Arguments Return {A} a.
Arguments Raise {A} e.
Arguments Stop {A} h.

Definition ECHILD : Z := 10.
Definition ESRCH : Z := 3.
Definition SIGKILL : Z := 9.
Definition SIGALRM : Z := 14.
Definition SIGTERM : Z := 15.
Definition WNOHANG : Z := 1.

(** ** The operating system *)

(** Disposition of [SIGALRM]. *)
Inductive Handler :=
| SIG_DFL                      (* default action: the interpreter is terminated *)
| SIG_IGN                      (* the signal is discarded *)
| alarm_handler (cls : nat).   (* with_timeout's handler: raise SigAlarm() *)

Inductive Syscall :=
| sys_alarm (seconds : Z)
| sys_signal (h : Handler)
| sys_waitpid (pid flags : Z)
| sys_kill (pid sig : Z)
| sys_raise (sig : Z)          (* a signal sent to the interpreter itself *)
| sys_spawn (pid : Z).

(** A child process as the kernel sees it.  Wait statuses are the raw
    integers that [waitpid] reports. *)
Record Child := {
  exits : option (Z * Z);
    (* (time, status) at which the child terminates if left alone *)
  on_signal : Z -> option (Z * Z);
    (* reaction to a catchable signal: terminate after (delay, status) *)
  reaped : bool
    (* the exit record has been collected *)
}.

Record World := {
  clock : Z;                   (* time.time(), in milliseconds *)
  alarm_at : option Z;         (* expiry of the pending alarm, if armed *)
  sigalrm : Handler;
  classes : nat;               (* SigAlarm classes created so far *)
  children : gmap Z Child;
  next_pid : Z;
  syslog : list Syscall        (* system calls made, oldest first *)
}.

Definition set_clock (t : Z) (w : World) : World :=
  {| clock := t; alarm_at := alarm_at w; sigalrm := sigalrm w;
     classes := classes w; children := children w; next_pid := next_pid w;
     syslog := syslog w |}.

Definition set_alarm_at (a : option Z) (w : World) : World :=
  {| clock := clock w; alarm_at := a; sigalrm := sigalrm w;
     classes := classes w; children := children w; next_pid := next_pid w;
     syslog := syslog w |}.

Definition set_sigalrm (h : Handler) (w : World) : World :=
  {| clock := clock w; alarm_at := alarm_at w; sigalrm := h;
     classes := classes w; children := children w; next_pid := next_pid w;
     syslog := syslog w |}.

Definition set_classes (n : nat) (w : World) : World :=
  {| clock := clock w; alarm_at := alarm_at w; sigalrm := sigalrm w;
     classes := n; children := children w; next_pid := next_pid w;
     syslog := syslog w |}.

Definition set_children (c : gmap Z Child) (w : World) : World :=
  {| clock := clock w; alarm_at := alarm_at w; sigalrm := sigalrm w;
     classes := classes w; children := c; next_pid := next_pid w;
     syslog := syslog w |}.

Definition set_next_pid (n : Z) (w : World) : World :=
  {| clock := clock w; alarm_at := alarm_at w; sigalrm := sigalrm w;
     classes := classes w; children := children w; next_pid := n;
     syslog := syslog w |}.

Definition log (e : Syscall) (w : World) : World :=
  {| clock := clock w; alarm_at := alarm_at w; sigalrm := sigalrm w;
     classes := classes w; children := children w; next_pid := next_pid w;
     syslog := syslog w ++ [e] |}.

(** A freshly started interpreter: nothing armed, no children. *)
Definition boot : World :=
  {| clock := 0; alarm_at := None; sigalrm := SIG_DFL; classes := 0%nat;
     children := ∅; next_pid := 100; syslog := [] |}.

(** ** The monad of Python code

    [X] is the part of the Python heap the code works on. *)

Definition M (X A : Type) : Type := X * World -> Result A * (X * World).

Section Monad.
Context {X : Type}.

Definition ret {A} (a : A) : M X A := fun st => (Return a, st).

Definition raise {A} (e : Exn) : M X A := fun st => (Raise e, st).

Definition halt {A} (h : Halt) : M X A := fun st => (Stop h, st).

Definition bind {A B} (m : M X A) (k : A -> M X B) : M X B := fun st =>
  match m st with
  | (Return a, st') => k a st'
  | (Raise e, st') => (Raise e, st')
  | (Stop h, st') => (Stop h, st')
  end.

(** [try: m  except <the exceptions h accepts>: ...] *)
Definition try_except {A} (m : M X A) (h : Exn -> option (M X A)) : M X A :=
  fun st =>
    match m st with
    | (Raise e, st') =>
        match h e with
        | Some k => k st'
        | None => (Raise e, st')
        end
    | other => other
    end.

(** [try: m  finally: fin].  An exception of the [finally] block
    replaces the outcome of the body. *)
Definition try_finally {A} (m : M X A) (fin : M X unit) : M X A :=
  fun st =>
    match m st with
    | (Stop h, st') => (Stop h, st')
    | (r, st') =>
        match fin st' with
        | (Return _, st'') => (r, st'')
        | (Raise e, st'') => (Raise e, st'')
        | (Stop h, st'') => (Stop h, st'')
        end
    end.

Definition get_world : M X World := fun st => (Return (snd st), st).

Definition modify_world (f : World -> World) : M X unit :=
  fun st => (Return tt, (fst st, f (snd st))).

Definition get_self : M X X := fun st => (Return (fst st), st).

Definition modify_self (f : X -> X) : M X unit :=
  fun st => (Return tt, (f (fst st), snd st)).
End Monad.

Notation "x <- m ;; k" := (bind m (fun x => k))
  (at level 100, m at next level, right associativity).
Notation "m ;;; k" := (bind m (fun _ => k))
  (at level 100, right associativity).

(** ** System calls *)

(** What [alarm()] reports for a timer with [ms] milliseconds to go: the
    nearest second, and never 0 while a timer is pending. *)
Definition seconds_left (ms : Z) : Z :=
  Z.max 1 (if 500 <=? ms `mod` 1000 then ms `div` 1000 + 1 else ms `div` 1000).

(** [int(dt + 0.5)] for an interval [dt] given in milliseconds. *)
Definition int_round (dt : Z) : Z := (dt + 500) `quot` 1000.

Section Syscalls.
Context {X : Type}.

(** [time.time()] *)
Definition time_time : M X Z := fun st => (Return (clock (snd st)), st).

(** [signal.alarm(n)]: returns the seconds left of the previous timer,
    arms a new one, or disarms for [n = 0]. *)
Definition signal_alarm (n : Z) : M X Z := fun st =>
  let w := snd st in
  let old := match alarm_at w with
             | None => 0
             | Some t => seconds_left (t - clock w)
             end in
  let a := if n =? 0 then None else Some (clock w + 1000 * n) in
  (Return old, (fst st, log (sys_alarm n) (set_alarm_at a w))).

(** [signal.signal(signal.SIGALRM, h)] *)
Definition signal_signal (h : Handler) : M X Handler := fun st =>
  let w := snd st in
  (Return (sigalrm w), (fst st, log (sys_signal h) (set_sigalrm h w))).

(** The interpreter receives [SIGALRM]. *)
Definition deliver : M X unit := fun st =>
  match sigalrm (snd st) with
  | SIG_DFL => (Stop (Killed SIGALRM), st)
  | SIG_IGN => (Return tt, st)
  | alarm_handler cls => (Raise (SigAlarm cls), st)
  end.

(** [os.kill(os.getpid(), signal.SIGALRM)] *)
Definition os_kill_self : M X unit :=
  modify_world (log (sys_raise SIGALRM)) ;;; deliver.

(** The calling thread sleeps in the kernel for [d] milliseconds, or
    for ever when [d = None].  If the alarm expires first the sleep is
    cut short there and the signal is delivered; an ignored signal
    leaves the sleep undisturbed. *)
Definition block (d : option Z) : M X unit := fun st =>
  let w := snd st in
  let finish (w' : World) : Result unit * (X * World) :=
    match d with
    | Some d => (Return tt, (fst st, set_clock (clock w + d) w'))
    | None => (Stop Blocked, (fst st, w'))
    end in
  let expires (t : Z) : bool :=
    match d with
    | Some d => t <=? clock w + d
    | None => true
    end in
  match alarm_at w with
  | Some t =>
      if expires t then
        let w1 := set_alarm_at None (set_clock (Z.max (clock w) t) w) in
        match deliver (fst st, w1) with
        | (Return _, (x, w2)) => finish w2
        | other => other
        end
      else finish w
  | None => finish w
  end.

Definition is_zombie (c : Child) (now : Z) : option Z :=
  match exits c with
  | Some (t, s) => if t <=? now then Some s else None
  | None => None
  end.

Definition mark_reaped (c : Child) : Child :=
  {| exits := exits c; on_signal := on_signal c; reaped := true |}.

Definition collect (pid : Z) (c : Child) : M X unit :=
  modify_world (fun w => set_children (<[pid := mark_reaped c]> (children w)) w).

(** [os.waitpid(pid, flags)] *)
Definition os_waitpid (pid flags : Z) : M X (Z * Z) :=
  modify_world (log (sys_waitpid pid flags)) ;;;
  w <- get_world ;;
  match children w !! pid with
  | None => raise (OSError ECHILD)
  | Some c =>
      if reaped c then raise (OSError ECHILD) else
      match is_zombie c (clock w) with
      | Some s => collect pid c ;;; ret (pid, s)
      | None =>
          if Z.testbit flags 0 then ret (0, 0) else
          match exits c with
          | Some (t, s) =>
              block (Some (t - clock w)) ;;; collect pid c ;;; ret (pid, s)
          | None => block None ;;; ret (0, 0)
          end
      end
  end.

Definition schedule_exit (t s : Z) (c : Child) : Child :=
  match exits c with
  | Some (t', _) =>
      if t' <=? t then c
      else {| exits := Some (t, s); on_signal := on_signal c; reaped := reaped c |}
  | None => {| exits := Some (t, s); on_signal := on_signal c; reaped := reaped c |}
  end.

(** A running child receives a signal at time [now].  [SIGKILL] cannot
    be caught: the child is gone at once, with wait status 9. *)
Definition receive (now sig : Z) (c : Child) : Child :=
  if sig =? SIGKILL then schedule_exit now SIGKILL c
  else match on_signal c sig with
       | Some (delay, s) => schedule_exit (now + Z.max 0 delay) s c
       | None => c
       end.

(** [os.kill(pid, sig)] on a child. *)
Definition os_kill (pid sig : Z) : M X unit :=
  modify_world (log (sys_kill pid sig)) ;;;
  w <- get_world ;;
  match children w !! pid with
  | None => raise (OSError ESRCH)
  | Some c =>
      if reaped c then raise (OSError ESRCH) else
      match is_zombie c (clock w) with
      | Some _ => ret tt
      | None =>
          modify_world (fun w =>
            set_children (<[pid := receive (clock w) sig c]> (children w)) w)
      end
  end.

End Syscalls.

(** [os.WIFEXITED]: [(status & 0x7f) == 0] *)
Definition WIFEXITED (status : Z) : bool := Z.land status 127 =? 0.

(** [os.WIFSIGNALED]: [((signed char) ((status & 0x7f) + 1) >> 1) > 0] *)
Definition WIFSIGNALED (status : Z) : bool :=
  let v := Z.land status 127 + 1 in
  let signed_char := if 128 <=? v then v - 256 else v in
  0 <? Z.shiftr signed_char 1.

(** ** The deadline guard *)

Section WithTimeout.
Context {X A : Type}.

(** [class SigAlarm(Exception)]: every call creates its own class. *)
Definition new_SigAlarm : M X nat := fun st =>
  let w := snd st in
  (Return (classes w), (fst st, set_classes (S (classes w)) w)).

(** [except SigAlarm: raise Timeout(...)] for the class [cls]. *)
Definition except_SigAlarm (cls : nat) (e : Exn) : option (M X A) :=
  match e with
  | SigAlarm c => if Nat.eqb c cls then Some (raise Timeout) else None
  | _ => None
  end.

(** [with_timeout(timeout, func, *args, **kwargs)].  [t0] is read
    before the [try] here; reading the clock neither fails nor takes
    time, and the previous alarm is already disarmed at that point. *)
Definition with_timeout (timeout : Z) (func : M X A) : M X A :=
  cls <- new_SigAlarm ;;
  oldalarm <- signal_alarm 0 ;;
  oldhandler <- signal_signal (alarm_handler cls) ;;
  t0 <- time_time ;;
  try_finally
    (try_except
       (signal_alarm timeout ;;; func)
       (except_SigAlarm cls))
    (signal_alarm 0 ;;;
     signal_signal oldhandler ;;;
     if negb (oldalarm =? 0) then
       t1 <- time_time ;;
       let remaining := oldalarm - int_round (t1 - t0) in
       if remaining <=? 0 then
         (* The old alarm has expired. *)
         os_kill_self
       else
         signal_alarm remaining ;;; ret tt
     else ret tt).
End WithTimeout.

(** A call that blocks for [d] milliseconds and then returns [v], such
    as [time.sleep] followed by a [return]. *)
Definition sleep_then {X A} (d : Z) (v : A) : M X A :=
  block (Some d) ;;; ret v.

(** A call that never returns by itself. *)
Definition sleep_forever {X A} : M X A :=
  block None ;;; halt Blocked.

(** A call that reports whether an expiration is armed while it runs. *)
Definition pending_alarm {X} : M X (option Z) :=
  w <- get_world ;; ret (alarm_at w).

(** ** Class [Process] *)

(** What [subprocess.Popen] is asked to run: whether the spawn fails,
    how long the program runs by itself and how it reacts to signals. *)
Record Program := {
  spawn_error : option Z;
  lifetime : option (Z * Z);
  reaction : Z -> option (Z * Z)
}.

Record Process := {
  pid : Z;                              (* self._process.pid *)
  stdin : bool;                         (* self._process.stdin is a pipe *)
  stdout : bool;                        (* self._process.stdout is a pipe *)
  stderr : bool;                        (* self._process.stderr is a pipe *)
  _pending_input : list string;
  _collected_outdata : list string;
  _collected_errdata : list string;
  _exitstatus : option Z;
  _inputsem : nat;                      (* counter of the semaphore *)
  _quit : bool
}.

Definition set_pending_input (l : list string) (p : Process) : Process :=
  {| pid := pid p; stdin := stdin p; stdout := stdout p; stderr := stderr p;
     _pending_input := l; _collected_outdata := _collected_outdata p;
     _collected_errdata := _collected_errdata p; _exitstatus := _exitstatus p;
     _inputsem := _inputsem p; _quit := _quit p |}.

Definition set_collected_outdata (l : list string) (p : Process) : Process :=
  {| pid := pid p; stdin := stdin p; stdout := stdout p; stderr := stderr p;
     _pending_input := _pending_input p; _collected_outdata := l;
     _collected_errdata := _collected_errdata p; _exitstatus := _exitstatus p;
     _inputsem := _inputsem p; _quit := _quit p |}.

Definition set_collected_errdata (l : list string) (p : Process) : Process :=
  {| pid := pid p; stdin := stdin p; stdout := stdout p; stderr := stderr p;
     _pending_input := _pending_input p; _collected_outdata := _collected_outdata p;
     _collected_errdata := l; _exitstatus := _exitstatus p;
     _inputsem := _inputsem p; _quit := _quit p |}.

Definition set_exitstatus (s : option Z) (p : Process) : Process :=
  {| pid := pid p; stdin := stdin p; stdout := stdout p; stderr := stderr p;
     _pending_input := _pending_input p; _collected_outdata := _collected_outdata p;
     _collected_errdata := _collected_errdata p; _exitstatus := s;
     _inputsem := _inputsem p; _quit := _quit p |}.

Definition set_inputsem (n : nat) (p : Process) : Process :=
  {| pid := pid p; stdin := stdin p; stdout := stdout p; stderr := stderr p;
     _pending_input := _pending_input p; _collected_outdata := _collected_outdata p;
     _collected_errdata := _collected_errdata p; _exitstatus := _exitstatus p;
     _inputsem := n; _quit := _quit p |}.

Definition set_quit (b : bool) (p : Process) : Process :=
  {| pid := pid p; stdin := stdin p; stdout := stdout p; stderr := stderr p;
     _pending_input := _pending_input p; _collected_outdata := _collected_outdata p;
     _collected_errdata := _collected_errdata p; _exitstatus := _exitstatus p;
     _inputsem := _inputsem p; _quit := b |}.

(** [subprocess.Popen(...)], reduced to what the library observes. *)
Definition Popen {X} (prog : Program) : M X Z :=
  match spawn_error prog with
  | Some errno => raise (OSError errno)
  | None =>
      w <- get_world ;;
      let child := {| exits := match lifetime prog with
                               | Some (d, s) => Some (clock w + Z.max 0 d, s)
                               | None => None
                               end;
                      on_signal := reaction prog;
                      reaped := false |} in
      modify_world (fun w =>
        log (sys_spawn (next_pid w))
          (set_next_pid (next_pid w + 1)
             (set_children (<[next_pid w := child]> (children w)) w))) ;;;
      ret (next_pid w)
  end.

(** [''.join(chunks)] *)
Definition str_join (chunks : list string) : string :=
  foldr String.append EmptyString chunks.

(** The methods run with [self] as the heap.  The body of every
    [self._lock.acquire() ... self._lock.release()] section is one
    indivisible step. *)
Module Process.

(** [Process.__init__], given the program and, for each stream, whether
    it is a pipe.  The threads it starts are [_feeder] and [_reader]
    below. *)
Definition __init__ {X} (prog : Program) (stdin stdout stderr : bool) : M X Process :=
  pid <- Popen prog ;;
  ret {| pid := pid; stdin := stdin; stdout := stdout; stderr := stderr;
         _pending_input := []; _collected_outdata := [];
         _collected_errdata := []; _exitstatus := None;
         _inputsem := 0%nat; _quit := false |}.

Definition closeinput : M Process unit :=
  modify_self (fun self => set_inputsem (S (_inputsem self)) (set_quit true self)).

Definition write (data : string) : M Process unit :=
  self <- get_self ;;
  if negb (stdin self) then raise ValueError else
  modify_self (fun self =>
    set_inputsem (S (_inputsem self))
      (set_pending_input (_pending_input self ++ [data]) self)).

Definition read : M Process string :=
  self <- get_self ;;
  let outdata := str_join (_collected_outdata self) in
  modify_self (set_collected_outdata []) ;;;
  ret outdata.

Definition readerr : M Process string :=
  self <- get_self ;;
  let errdata := str_join (_collected_errdata self) in
  modify_self (set_collected_errdata []) ;;;
  ret errdata.

Definition readboth : M Process (string * string) :=
  self <- get_self ;;
  let outdata := str_join (_collected_outdata self) in
  modify_self (set_collected_outdata []) ;;;
  self <- get_self ;;
  let errdata := str_join (_collected_errdata self) in
  modify_self (set_collected_errdata []) ;;;
  ret (outdata, errdata).

Definition _peek : M Process (string * string) :=
  self <- get_self ;;
  ret (str_join (_collected_outdata self), str_join (_collected_errdata self)).

Definition kill (signal : Z) : M Process unit :=
  self <- get_self ;;
  match _exitstatus self with
  | Some _ => raise (OSError ECHILD)
  | None => os_kill (pid self) signal
  end.

(** [Thread.join()] of a reader thread: the caller's own state is not
    touched, what the reader collected is added by [_reader]. *)
Definition join : M Process unit := ret tt.

Definition wait (flags : Z) : M Process (option Z) :=
  self <- get_self ;;
  match _exitstatus self with
  | Some status => ret (Some status)
  | None =>
      r <- os_waitpid (pid self) flags ;;
      let '(pid, exitstatus) := r in
      if pid =? 0 then ret None else
      (if WIFEXITED exitstatus || WIFSIGNALED exitstatus then
         modify_self (set_exitstatus (Some exitstatus)) ;;;
         (if stdin self then closeinput else ret tt) ;;;
         (if stdout self then join else ret tt) ;;;
         (if stderr self then join else ret tt)
       else ret tt) ;;;
      ret (Some exitstatus)
  end.

(** [try: return with_timeout(graceperiod, self.wait)
     except Timeout: pass]
    [Some r] stands for [return r], [None] for falling through. *)
Definition wait_or_pass (graceperiod : Z) : M Process (option (option Z)) :=
  try_except
    (r <- with_timeout graceperiod (wait 0) ;; ret (Some r))
    (fun e => match e with Timeout => Some (ret None) | _ => None end).

Definition terminate (graceperiod : Z) : M Process (option Z) :=
  self <- get_self ;;
  returned <- (if stdin self then closeinput ;;; wait_or_pass graceperiod
               else ret None) ;;
  match returned with
  | Some r => ret r
  | None =>
      kill SIGTERM ;;;
      returned <- wait_or_pass graceperiod ;;
      match returned with
      | Some r => ret r
      | None =>
          kill SIGKILL ;;;
          wait 0
      end
  end.

(** [__del__]; an exception raised in it is ignored by the interpreter. *)
Definition __del__ : M Process unit :=
  self <- get_self ;;
  match _exitstatus self with
  | None => try_except (os_kill (pid self) SIGKILL) (fun _ => Some (ret tt))
  | Some _ => ret tt
  end.

(** One turn of the loop of [_reader]: [data] is what [os.read]
    returned. *)
Definition reader_out_turn (data : string) (self : Process) : Process :=
  set_collected_outdata (_collected_outdata self ++ [data]) self.

Definition reader_err_turn (data : string) (self : Process) : Process :=
  set_collected_errdata (_collected_errdata self ++ [data]) self.

(** The thread [_reader] on the successive results [reads] of
    [os.read]: it stops after the first empty one. *)
Fixpoint _reader (turn : string -> Process -> Process) (reads : list string)
    (self : Process) : Process :=
  match reads with
  | [] => self
  | data :: rest =>
      if String.eqb data EmptyString then turn data self
      else _reader turn rest (turn data self)
  end.

(** How the thread [_feeder] leaves off. *)
Inductive FeederState :=
| feeder_waiting          (* blocked in self._inputsem.acquire() *)
| feeder_closed           (* drain.close(); break *)
| feeder_failed (e : Exn).

(** The thread [_feeder], run until it blocks or ends: the chunks it
    wrote to the drain, how it left off, and the object afterwards.
    Every turn of the loop takes one unit of the semaphore. *)
Fixpoint feeder_loop (sem : nat) (self : Process)
    : list string * FeederState * Process :=
  match sem with
  | O => ([], feeder_waiting, self)
  | S sem' =>
      let self := set_inputsem sem' self in
      match _pending_input self with
      | [] =>
          if _quit self then ([], feeder_closed, self)
          else ([], feeder_failed IndexError, self)
      | data :: rest =>
          let '(written, st, self') := feeder_loop sem' (set_pending_input rest self) in
          (data :: written, st, self')
      end
  end.

Definition _feeder (self : Process) : list string * FeederState * Process :=
  feeder_loop (_inputsem self) self.

End Process.

(** ** Class [ProcessManager] *)

Record ProcessManager := {
  __last_id : Z;
  __procs : gmap Z Process
}.

Module ProcessManager.

Definition __init__ : ProcessManager :=
  {| __last_id := 0; __procs := ∅ |}.

(** [self.__procs[procid].<method>(...)]: a missing key is a
    [KeyError]; the method works on the stored object. *)
Definition on_proc {A} (procid : Z) (method : M Process A) : M ProcessManager A :=
  fun st =>
    let self := fst st in
    match __procs self !! procid with
    | None => (Raise (KeyError procid), st)
    | Some proc =>
        let '(r, (proc', w')) := method (proc, snd st) in
        (r, ({| __last_id := __last_id self;
                __procs := <[procid := proc']> (__procs self) |}, w'))
    end.

(** Arguments [executable], [shell], [cwd] and [env] are part of
    [prog]; the three streams default to pipes. *)
Definition start (prog : Program) : M ProcessManager Z :=
  proc <- Process.__init__ prog true true true ;;
  modify_self (fun self =>
    {| __last_id := __last_id self + 1;
       __procs := <[__last_id self + 1 := proc]> (__procs self) |}) ;;;
  self <- get_self ;;
  ret (__last_id self).

Definition kill (procid signal : Z) : M ProcessManager unit :=
  on_proc procid (Process.kill signal).

Definition terminate (procid graceperiod : Z) : M ProcessManager (option Z) :=
  on_proc procid (Process.terminate graceperiod).

Definition write (procid : Z) (data : string) : M ProcessManager unit :=
  on_proc procid (Process.write data).

Definition closeinput (procid : Z) : M ProcessManager unit :=
  on_proc procid Process.closeinput.

Definition read (procid : Z) : M ProcessManager string :=
  on_proc procid Process.read.

Definition readerr (procid : Z) : M ProcessManager string :=
  on_proc procid Process.readerr.

Definition readboth (procid : Z) : M ProcessManager (string * string) :=
  on_proc procid Process.readboth.

Definition wait (procid flags : Z) : M ProcessManager (option Z) :=
  on_proc procid (Process.wait flags).

(** [del self.__procs[procid]]: the entry goes, and with it the
    reference the registry held to the object, whose [__del__] runs. *)
Definition del_proc (procid : Z) : M ProcessManager unit := fun st =>
  let self := fst st in
  match __procs self !! procid with
  | None => (Raise (KeyError procid), st)
  | Some proc =>
      let '(r, (_, w')) := Process.__del__ (proc, snd st) in
      (r, ({| __last_id := __last_id self;
              __procs := delete procid (__procs self) |}, w'))
  end.

Definition reap (procid : Z) : M ProcessManager unit :=
  running <- wait procid WNOHANG ;;
  (match running with
   | None => kill procid SIGKILL
   | Some _ => ret tt
   end) ;;;
  wait procid 0 ;;;
  del_proc procid.

Fixpoint reap_each (procids : list Z) : M ProcessManager unit :=
  match procids with
  | [] => ret tt
  | procid :: rest => reap procid ;;; reap_each rest
  end.

(** [for procid in self.__procs.keys(): self.reap(procid)] *)
Definition reapall : M ProcessManager unit :=
  self <- get_self ;;
  reap_each (map fst (map_to_list (__procs self))).

End ProcessManager.

(** ** Sequences of calls *)

(** The public operations of a [Process], and the turns of its
    background threads, as data. *)
Inductive Call :=
| c_kill (signal : Z)
| c_wait (flags : Z)
| c_terminate (graceperiod : Z)
| c_read
| c_readerr
| c_readboth
| c_peek
| c_write (data : string)
| c_closeinput
| c_reader_out (data : string)     (* stdout-thread appends a chunk *)
| c_reader_err (data : string)     (* stderr-thread appends a chunk *)
| c_feeder.                        (* stdin-thread runs until it blocks *)

Inductive Reply :=
| r_none
| r_id (procid : Z)
| r_status (status : option Z)
| r_data (data : string)
| r_both (outdata errdata : string).

Definition reply {X A} (f : A -> Reply) (m : M X A) : M X Reply :=
  a <- m ;; ret (f a).

Definition call (c : Call) : M Process Reply :=
  match c with
  | c_kill signal => reply (fun _ => r_none) (Process.kill signal)
  | c_wait flags => reply r_status (Process.wait flags)
  | c_terminate graceperiod => reply r_status (Process.terminate graceperiod)
  | c_read => reply r_data Process.read
  | c_readerr => reply r_data Process.readerr
  | c_readboth => reply (fun r => r_both (fst r) (snd r)) Process.readboth
  | c_peek => reply (fun r => r_both (fst r) (snd r)) Process._peek
  | c_write data => reply (fun _ => r_none) (Process.write data)
  | c_closeinput => reply (fun _ => r_none) Process.closeinput
  | c_reader_out data => reply (fun _ => r_none) (modify_self (Process.reader_out_turn data))
  | c_reader_err data => reply (fun _ => r_none) (modify_self (Process.reader_err_turn data))
  | c_feeder => reply (fun _ => r_none) (modify_self (fun self => snd (Process._feeder self)))
  end.

(** The requests a [ProcessManager] serves. *)
Inductive Request :=
| q_start (prog : Program)
| q_kill (procid signal : Z)
| q_terminate (procid graceperiod : Z)
| q_write (procid : Z) (data : string)
| q_closeinput (procid : Z)
| q_read (procid : Z)
| q_readerr (procid : Z)
| q_readboth (procid : Z)
| q_wait (procid flags : Z)
| q_reap (procid : Z)
| q_reapall.

Definition serve (q : Request) : M ProcessManager Reply :=
  match q with
  | q_start prog => reply r_id (ProcessManager.start prog)
  | q_kill procid signal => reply (fun _ => r_none) (ProcessManager.kill procid signal)
  | q_terminate procid graceperiod =>
      reply r_status (ProcessManager.terminate procid graceperiod)
  | q_write procid data => reply (fun _ => r_none) (ProcessManager.write procid data)
  | q_closeinput procid => reply (fun _ => r_none) (ProcessManager.closeinput procid)
  | q_read procid => reply r_data (ProcessManager.read procid)
  | q_readerr procid => reply r_data (ProcessManager.readerr procid)
  | q_readboth procid =>
      reply (fun r => r_both (fst r) (snd r)) (ProcessManager.readboth procid)
  | q_wait procid flags => reply r_status (ProcessManager.wait procid flags)
  | q_reap procid => reply (fun _ => r_none) (ProcessManager.reap procid)
  | q_reapall => reply (fun _ => r_none) ProcessManager.reapall
  end.

(** Calls made one after the other by a caller that catches the
    exception of each; nothing follows once the interpreter stops. *)
Fixpoint run {X Q} (step : Q -> M X Reply) (qs : list Q) (st : X * World)
    : list (Result Reply) * (X * World) :=
  match qs with
  | [] => ([], st)
  | q :: rest =>
      match step q st with
      | (Stop h, st') => ([Stop h], st')
      | (r, st') =>
          let '(rs, st'') := run step rest st' in (r :: rs, st'')
      end
  end.

(** The handles that the [start] requests of a run returned. *)
Fixpoint started (rs : list (Result Reply)) : list Z :=
  match rs with
  | [] => []
  | Return (r_id procid) :: rest => procid :: started rest
  | _ :: rest => started rest
  end.

(** The handle a request refers to. *)
Definition handle_of (q : Request) : option Z :=
  match q with
  | q_start _ | q_reapall => None
  | q_kill procid _ | q_terminate procid _ | q_write procid _
  | q_closeinput procid | q_read procid | q_readerr procid
  | q_readboth procid | q_wait procid _ | q_reap procid => Some procid
  end.

(** ** Vocabulary of the statements *)

(** The part of the heap a computation leaves behind. *)
Definition self_after {X A} (m : M X A) (st : X * World) : X := fst (snd (m st)).

(** [m] never takes the heap out of [P]. *)
Definition keeps {X A} (P : X -> Prop) (m : M X A) : Prop :=
  forall x w, P x -> P (self_after m (x, w)).

(** A computation that works on the world alone. *)
Definition world_only {X A} (m : M X A) : Prop :=
  forall x w, self_after m (x, w) = x.

Definition stopped {A} (r : Result A) : bool :=
  match r with Stop _ => true | _ => false end.

(** No call of the run found the interpreter stopped. *)
Definition all_served (rs : list (Result Reply)) : bool :=
  negb (existsb stopped rs).

(** The chunks the stdout-thread, respectively the stderr-thread,
    appends during a sequence of calls. *)
Fixpoint out_chunks (cs : list Call) : list string :=
  match cs with
  | [] => []
  | c_reader_out data :: rest => data :: out_chunks rest
  | _ :: rest => out_chunks rest
  end.

Fixpoint err_chunks (cs : list Call) : list string :=
  match cs with
  | [] => []
  | c_reader_err data :: rest => data :: err_chunks rest
  | _ :: rest => err_chunks rest
  end.

(** Calls that empty the buffer of standard output, respectively of
    standard error. *)
Definition reads_out (c : Call) : bool :=
  match c with c_read | c_readboth => true | _ => false end.

Definition reads_err (c : Call) : bool :=
  match c with c_readerr | c_readboth => true | _ => false end.

(** System calls that only concern the alarm timer. *)
Definition timer_call (e : Syscall) : bool :=
  match e with sys_alarm _ | sys_signal _ => true | _ => false end.

(** What [signal.alarm(0)] reports in world [w]. *)
Definition old_alarm (w : World) : Z :=
  match alarm_at w with
  | None => 0
  | Some t => seconds_left (t - clock w)
  end.

(** The world in which the guarded function starts when the guard is
    entered in world [w]. *)
Definition entered (timeout : Z) (w : World) : World :=
  log (sys_alarm timeout)
    (set_alarm_at (if timeout =? 0 then None else Some (clock w + 1000 * timeout))
       (log (sys_signal (alarm_handler (classes w)))
          (set_sigalrm (alarm_handler (classes w))
             (log (sys_alarm 0)
                (set_alarm_at None (set_classes (S (classes w)) w)))))).

(** The world after the guard's own timer and handler are taken down,
    when the guard was entered in world [w]. *)
Definition taken_down (w w1 : World) : World :=
  log (sys_signal (sigalrm w))
    (set_sigalrm (sigalrm w) (log (sys_alarm 0) (set_alarm_at None w1))).

(** Seconds of the outer timer that remain when the guard, entered in
    world [w], is left in world [w1]. *)
Definition remaining (w w1 : World) : Z :=
  old_alarm w - int_round (clock w1 - clock w).

(** The outcome of the guard given the outcome of its function: the
    guard's own alarm exception becomes [Timeout]. *)
Definition guarded {A} (cls : nat) (r : Result A) : Result A :=
  match r with
  | Raise (SigAlarm c) => if Nat.eqb c cls then Raise Timeout else r
  | _ => r
  end.

(** ** The escalation of [terminate], stage by stage *)









(** Between two states of the registry no handle was issued and no
    absent handle came into use. *)
Definition no_new_handle (m m' : ProcessManager) : Prop :=
  __last_id m' = __last_id m /\
  forall k, __procs m !! k = None -> __procs m' !! k = None.

(** Every handle in use has been issued. *)
Definition handles_issued (m : ProcessManager) : Prop :=
  forall k, is_Some (__procs m !! k) -> k <= __last_id m.

(** Handle [procid] has been issued and is not in use. *)
Definition retired (procid : Z) (m : ProcessManager) : Prop :=
  __procs m !! procid = None /\ procid <= __last_id m.

(** ** Sample programs and objects *)

(** Ignores every catchable signal and never exits by itself. *)
Definition stubborn : Program :=
  {| spawn_error := None; lifetime := None; reaction := fun _ => None |}.

(** Exits 300 ms after a [SIGTERM], otherwise runs for ever. *)
Definition polite : Program :=
  {| spawn_error := None; lifetime := None;
     reaction := fun sig => if sig =? SIGTERM then Some (300, SIGTERM) else None |}.

(** Exits with status 0 after 200 ms. *)
Definition quick : Program :=
  {| spawn_error := None; lifetime := Some (200, 0); reaction := fun _ => None |}.

(** A process object for child 100, nothing buffered, status unknown. *)
Definition fresh_process (stdin : bool) : Process :=
  {| pid := 100; stdin := stdin; stdout := true; stderr := true;
     _pending_input := []; _collected_outdata := [];
     _collected_errdata := []; _exitstatus := None;
     _inputsem := 0%nat; _quit := false |}.

(** The world right after [prog] was spawned at boot as child 100. *)
Definition world_with (prog : Program) : World :=
  snd (snd (Popen (X:=unit) prog (tt, boot))).


(** ** Text helpers of the bookkeeping code *)

Definition newline : Ascii.ascii := Ascii.ascii_of_nat 10.
Definition space : Ascii.ascii := Ascii.ascii_of_nat 32.
Definition star : Ascii.ascii := Ascii.ascii_of_nat 42.

(** ['\n' in s] *)
Fixpoint has_newline (s : string) : bool :=
  match s with
  | EmptyString => false
  | String c rest => Ascii.eqb c newline || has_newline rest
  end.

(** [s.split('\n')] *)
Fixpoint split_lines (s : string) : list string :=
  match s with
  | EmptyString => [EmptyString]
  | String c rest =>
      if Ascii.eqb c newline then EmptyString :: split_lines rest
      else match split_lines rest with
           | line :: lines => String c line :: lines
           | [] => [String c EmptyString]
           end
  end.

(** [len(s) > 0 and s[-1] == '\n'] *)
Fixpoint ends_with_newline (s : string) : bool :=
  match s with
  | EmptyString => false
  | String c EmptyString => Ascii.eqb c newline
  | String _ rest => ends_with_newline rest
  end.

(** [s[:-1]] *)
Fixpoint drop_last (s : string) : string :=
  match s with
  | EmptyString => EmptyString
  | String _ EmptyString => EmptyString
  | String c rest => String c (drop_last rest)
  end.

(** ** Class [OutputLogger]

    The logger stands between the program and its two output streams.
    What it does to the outside (the streams it was created on, the
    [logging] logger and its file handler) is the list of [Effect]s a
    method returns. *)
Module OutputLogger.

(** [class BState]: [EMPTY = 0], [STDOUT = 1], [STDERR = 2]. *)
Inductive BState := EMPTY | STDOUT | STDERR.

Definition BState_eqb (a b : BState) : bool :=
  match a, b with
  | EMPTY, EMPTY | STDOUT, STDOUT | STDERR, STDERR => true
  | _, _ => false
  end.

(** What [sys.stdout] and [sys.stderr] can be bound to. *)
Inductive Stream :=
| console_out
| console_err
| stdOutHandler          (* OutstreamHandler(handleWriteOut, handleFlushOut) *)
| stdErrHandler.         (* OutstreamHandler(handleWriteErr, handleFlushErr) *)

Record Sys := {
  sys_stdout : Stream;
  sys_stderr : Stream
}.

Inductive Effect :=
| e_write (s : Stream) (message : string)   (* s.write(message) *)
| e_flush (s : Stream)                      (* s.flush() *)
| e_log (line : string)                     (* self.log.info(line) *)
| e_file_flush.                             (* self.fileHandler.flush() *)

Inductive Error :=
| AlreadyStarted      (* 'ERROR: OutputLogger capture was already started.' *)
| NotStarted          (* 'ERROR: OutputLogger capture was not started.' *)
| AssertionError.

Record t := {
  stdout : Stream;
  stderr : Stream;
  buffer : string;
  bufferState : BState;
  started : bool
}.

Definition set_buffer (b : string) (st : BState) (self : t) : t :=
  {| stdout := stdout self; stderr := stderr self; buffer := b;
     bufferState := st; started := started self |}.

Definition set_started (b : bool) (self : t) : t :=
  {| stdout := stdout self; stderr := stderr self; buffer := buffer self;
     bufferState := bufferState self; started := b |}.

Definition __init__ (sys : Sys) : t :=
  {| stdout := sys_stdout sys; stderr := sys_stderr sys;
     buffer := EmptyString; bufferState := EMPTY; started := false |}.

Definition tag_out : string := "  ".
Definition tag_err : string := "* ".

Definition flush (self : t) : list Effect * t :=
  let streams := [e_flush (stdout self); e_flush (stderr self)] in
  match bufferState self with
  | EMPTY => (streams ++ [e_file_flush], self)
  | state =>
      let buffer :=
        if ends_with_newline (buffer self) then drop_last (buffer self)
        else buffer self in
      let logged :=
        match state with
        | STDOUT => map (fun line => e_log (String.append tag_out line)) (split_lines buffer)
        | STDERR => map (fun line => e_log (String.append tag_err line)) (split_lines buffer)
        | EMPTY => []
        end in
      (streams ++ logged ++ [e_file_flush], set_buffer EmptyString EMPTY self)
  end.

(** [if '\n' in self.buffer: self.flush()] *)
Definition flush_if_newline (self : t) : list Effect * t :=
  if has_newline (buffer self) then flush self else ([], self).

Definition write (message : string) (destination : BState) (self : t)
    : list Effect * t * option Error :=
  let echo :=
    match destination with
    | STDOUT => e_write (stdout self) message
    | _ => e_write (stderr self) message
    end in
  if BState_eqb destination (bufferState self) || BState_eqb (bufferState self) EMPTY
  then
    let self1 := set_buffer (String.append (buffer self) message) destination self in
    let '(effects, self2) := flush_if_newline self1 in
    (echo :: effects, self2, None)
  else
    (* flush and change buffer *)
    let '(flushed, self1) := flush self in
    if negb (String.eqb (buffer self1) EmptyString)
    then (echo :: flushed, self1, Some AssertionError)
    else
      let self2 := set_buffer (String.append EmptyString message) destination self1 in
      let '(effects, self3) := flush_if_newline self2 in
      (echo :: flushed ++ effects, self3, None).

Definition handleWriteOut (message : string) (self : t) := write message STDOUT self.
Definition handleWriteErr (message : string) (self : t) := write message STDERR self.
Definition handleFlushOut (self : t) := flush self.
Definition handleFlushErr (self : t) := flush self.

Definition startCapture (self : t) (sys : Sys) : (t * Sys) + Error :=
  if started self then inr AlreadyStarted
  else inl (set_started true self,
            {| sys_stdout := stdOutHandler; sys_stderr := stdErrHandler |}).

Definition finishCapture (self : t) (sys : Sys) : list Effect * ((t * Sys) + Error) :=
  if negb (started self) then ([], inr NotStarted)
  else
    let '(effects, self1) := flush (set_started false self) in
    (effects, inl (self1, {| sys_stdout := stdout self1; sys_stderr := stderr self1 |})).

End OutputLogger.

(** What the program does with its two streams while they are
    captured: [write] and [flush] on [sys.stdout] and on [sys.stderr],
    which the two [OutstreamHandler]s pass on to the logger. *)
Inductive Use :=
| u_write_out (message : string)
| u_write_err (message : string)
| u_flush_out
| u_flush_err.

Definition use (u : Use) (self : OutputLogger.t)
    : list OutputLogger.Effect * OutputLogger.t * option OutputLogger.Error :=
  match u with
  | u_write_out message => OutputLogger.handleWriteOut message self
  | u_write_err message => OutputLogger.handleWriteErr message self
  | u_flush_out =>
      let '(effects, self') := OutputLogger.handleFlushOut self in (effects, self', None)
  | u_flush_err =>
      let '(effects, self') := OutputLogger.handleFlushErr self in (effects, self', None)
  end.

(** One use after the other, up to the first that raises. *)
Fixpoint uses (us : list Use) (self : OutputLogger.t)
    : list OutputLogger.Effect * OutputLogger.t * option OutputLogger.Error :=
  match us with
  | [] => ([], self, None)
  | u :: rest =>
      match use u self with
      | (effects, self', Some e) => (effects, self', Some e)
      | (effects, self', None) =>
          let '(more, self'', e) := uses rest self' in (effects ++ more, self'', e)
      end
  end.

(** [s] without its newline characters. *)
Fixpoint strip_newlines (s : string) : string :=
  match s with
  | EmptyString => EmptyString
  | String c rest =>
      if Ascii.eqb c newline then strip_newlines rest
      else String c (strip_newlines rest)
  end.

(** The text written to standard output, respectively standard error,
    by a sequence of uses. *)
Fixpoint text_out (us : list Use) : string :=
  match us with
  | [] => EmptyString
  | u_write_out message :: rest => String.append message (text_out rest)
  | _ :: rest => text_out rest
  end.

Fixpoint text_err (us : list Use) : string :=
  match us with
  | [] => EmptyString
  | u_write_err message :: rest => String.append message (text_err rest)
  | _ :: rest => text_err rest
  end.

(** The log lines that carry the tag of standard output, respectively
    of standard error, without the tag. *)
Fixpoint lines_out (effects : list OutputLogger.Effect) : list string :=
  match effects with
  | [] => []
  | OutputLogger.e_log (String c1 (String c2 line)) :: rest =>
      if Ascii.eqb c1 space && Ascii.eqb c2 space then line :: lines_out rest
      else lines_out rest
  | _ :: rest => lines_out rest
  end.

Fixpoint lines_err (effects : list OutputLogger.Effect) : list string :=
  match effects with
  | [] => []
  | OutputLogger.e_log (String c1 (String c2 line)) :: rest =>
      if Ascii.eqb c1 star && Ascii.eqb c2 space then line :: lines_err rest
      else lines_err rest
  | _ :: rest => lines_err rest
  end.

(** The text held back for a stream. *)
Definition held (st : OutputLogger.BState) (self : OutputLogger.t) : string :=
  if OutputLogger.BState_eqb (OutputLogger.bufferState self) st
  then OutputLogger.buffer self else EmptyString.

(** What the wrapped streams received. *)
Fixpoint echoes (effects : list OutputLogger.Effect) : list OutputLogger.Effect :=
  match effects with
  | [] => []
  | OutputLogger.e_write s message :: rest => OutputLogger.e_write s message :: echoes rest
  | _ :: rest => echoes rest
  end.

Definition echo_of (self : OutputLogger.t) (u : Use) : list OutputLogger.Effect :=
  match u with
  | u_write_out message => [OutputLogger.e_write (OutputLogger.stdout self) message]
  | u_write_err message => [OutputLogger.e_write (OutputLogger.stderr self) message]
  | _ => []
  end.

(** Between calls the buffer holds no newline, and nothing at all when
    it is marked empty. *)
Definition tidy (self : OutputLogger.t) : Prop :=
  (OutputLogger.bufferState self = OutputLogger.EMPTY ->
   OutputLogger.buffer self = EmptyString) /\
  has_newline (OutputLogger.buffer self) = false.

(** A log record that is a single line. *)
Definition one_line (e : OutputLogger.Effect) : bool :=
  match e with
  | OutputLogger.e_log line => negb (has_newline line)
  | _ => true
  end.

(** ** The git helpers *)

(** What running a command gave: exit code, standard output and
    standard error ([proc.communicate()] and [proc.wait()]). *)
Record Ran := {
  code : Z;
  out : string;
  err : string
}.

(** [runCmd(args, supressErr)], given what running [args] gives;
    [None] stands for the exception it raises. *)
Definition runCmd (ran : Ran) (supressErr : bool) : option (Z * string * string) :=
  if negb (code ran =? 0) && negb supressErr then None
  else Some (code ran, out ran, err ran).

(** [gitWorks()], given what [git status] gives. *)
Definition gitWorks (ran : Ran) : bool :=
  match runCmd ran true with
  | Some (code, _, _) => code =? 0
  | None => false
  end.

(** The loop of [gitCurrentBranch]: the first line longer than two
    characters that starts with a star, without its first two
    characters. *)
Fixpoint current_branch_of (lines : list string) : option string :=
  match lines with
  | [] => None
  | line :: rest =>
      match line with
      | String c0 (String _ (String c2 name)) =>
          if Ascii.eqb c0 star then Some (String c2 name)
          else current_branch_of rest
      | _ => current_branch_of rest
      end
  end.

(** [gitCurrentBranch()], given what [git branch] gives. *)
Definition gitCurrentBranch (ran : Ran) : option string :=
  match runCmd ran false with
  | Some (_, out, _) => current_branch_of (split_lines out)
  | None => None
  end.

(** A line of [git branch]: two characters of marker, the name, a
    newline. *)
Definition branch_line (current : bool) (name : string) : string :=
  String (if current then star else space)
    (String space (String.append name (String newline EmptyString))).

(** The output of [git branch] for branches listed with their marker. *)
Fixpoint listing (branches : list (bool * string)) : string :=
  match branches with
  | [] => EmptyString
  | (current, name) :: rest => String.append (branch_line current name) (listing rest)
  end.

(** ** Class [GitResultsManager]: naming the run directory *)

(** [str.strip()]: the characters for which [isspace] holds are space,
    tab, newline, vertical tab, form feed and carriage return. *)
Definition isspace (c : Ascii.ascii) : bool :=
  let n := Ascii.nat_of_ascii c in
  (n =? 32)%nat || ((9 <=? n)%nat && (n <=? 13)%nat).

Fixpoint lstrip (s : string) : string :=
  match s with
  | EmptyString => EmptyString
  | String c rest => if isspace c then lstrip rest else s
  end.

Fixpoint rstrip (s : string) : string :=
  match s with
  | EmptyString => EmptyString
  | String c rest =>
      match rstrip rest with
      | EmptyString => if isspace c then EmptyString else String c EmptyString
      | kept => String c kept
      end
  end.

Definition strip (s : string) : string := rstrip (lstrip s).

(** [' ' in description] *)
Fixpoint has_space (s : string) : bool :=
  match s with
  | EmptyString => false
  | String c rest => Ascii.eqb c space || has_space rest
  end.

Definition slash : Ascii.ascii := Ascii.ascii_of_nat 47.

Fixpoint endswith_slash (s : string) : bool :=
  match s with
  | EmptyString => false
  | String c EmptyString => Ascii.eqb c slash
  | String _ rest => endswith_slash rest
  end.

(** [os.path.join(a, b)] of [posixpath]. *)
Definition path_join (a b : string) : string :=
  match b with
  | String c _ =>
      if Ascii.eqb c slash then b
      else if String.eqb a EmptyString || endswith_slash a then String.append a b
      else String.append a (String slash b)
  | EmptyString =>
      if String.eqb a EmptyString || endswith_slash a then a
      else String.append a (String slash EmptyString)
  end.

Module GitResultsManager.

(** What the system answers while [start] runs: whether a path is a
    directory ([os.stat] succeeds and [S_ISDIR] holds), whether
    [os.mkdir] of a path raises [OSError], the time of day as
    [strftime('%y%m%d_%H%M%S')] prints it, and what the three git
    commands give. *)
Record Env := {
  isdir : string -> bool;
  mkdir_raises : string -> bool;
  timestamp : string;
  git_status : Ran;
  git_rev_parse : Ran;
  git_branch : Ran
}.

Inductive Event :=
| ev_mkdir (path : string)        (* os.mkdir(path) succeeded *)
| ev_print (text : string)        (* print text *)
| ev_print_err (text : string).   (* print >>sys.stderr, text *)

Inductive Error :=
| NoResultsDirectory      (* 'Please create the results directory "%s" first.' *)
| SpaceInDescription      (* 'Description must not contain any spaces, ...' *)
| NoAttribute_finish      (* AttributeError: the class defines no [finish] *)
| CommandError            (* 'Got error from running command with args ...' *)
| NoCurrentBranch.        (* 'Error getting current branch from git ...' *)

Inductive Outcome :=
| Named                   (* [self._name = name] is reached *)
| Failed (e : Error)      (* an exception leaves [start] *)
| Looping.                (* the loop is still running when the fuel is used up *)

(** An object constructed without [resumeExistingRun]. *)
Record t := {
  _resultsSubdir : string;
  _name : option string;
  _outLogger : option OutputLogger.t;
  diary : option bool
}.

Definition RESULTS_SUBDIR : string := "results".

Definition __init__ (resultsSubdir : option string) : t :=
  {| _resultsSubdir := match resultsSubdir with
                       | Some d => d
                       | None => RESULTS_SUBDIR
                       end;
     _name := None; _outLogger := None; diary := None |}.

Definition set_name (name : string) (self : t) : t :=
  {| _resultsSubdir := _resultsSubdir self; _name := Some name;
     _outLogger := _outLogger self; diary := diary self |}.

Definition set_diary (d : bool) (self : t) : t :=
  {| _resultsSubdir := _resultsSubdir self; _name := _name self;
     _outLogger := _outLogger self; diary := Some d |}.

(** [basename + ('_%d' % ii if ii > 0 else '')] *)
Definition candidate (basename : string) (ii : nat) : string :=
  String.append basename
    (if (0 <? ii)%nat then String.append "_" (pretty ii) else EmptyString).

Definition notice (name : string) : Event :=
  ev_print_err (String.append name " already exists, appending suffix to name").

(** The loop [while not success]; [fuel] bounds the number of calls of
    [os.mkdir]. *)
Fixpoint mkdir_loop (fuel : nat) (env : Env) (resultsSubdir basename : string) (ii : nat)
    : list Event * option string :=
  match fuel with
  | O => ([], None)
  | S fuel' =>
      let name := candidate basename ii in
      if mkdir_raises env (path_join resultsSubdir name) then
        let '(events, found) := mkdir_loop fuel' env resultsSubdir basename (S ii) in
        (notice name :: events, found)
      else ([ev_mkdir (path_join resultsSubdir name)], Some name)
  end.

(** [gitLastCommit()] *)
Definition gitLastCommit (env : Env) : option string :=
  match runCmd (git_rev_parse env) false with
  | Some (_, out, _) => Some (strip out)
  | None => None
  end.

(** The base name of the run directory, or the exception and the
    output of the git command that failed. *)
Definition basename_of (env : Env) (description : string)
    : list Event * (string + Error) :=
  let described (basename : string) : string :=
    if String.eqb description EmptyString then basename
    else String.append basename (String.append "_" description) in
  if gitWorks (git_status env) then
    match gitLastCommit env with
    | None =>
        ([ev_print (out (git_rev_parse env)); ev_print (err (git_rev_parse env))],
         inr CommandError)
    | Some lastCommit =>
        match runCmd (git_branch env) false with
        | None =>
            ([ev_print (out (git_branch env)); ev_print (err (git_branch env))],
             inr CommandError)
        | Some _ =>
            match gitCurrentBranch (git_branch env) with
            | None => ([], inr NoCurrentBranch)
            | Some curBranch =>
                ([], inl (described
                            (String.append (timestamp env)
                               (String.append "_"
                                  (String.append lastCommit
                                     (String.append "_" curBranch))))))
            end
        end
    end
  else ([], inl (described (timestamp env))).

(** [start(description, diary)] from its entry to [self._name = name].
    What follows in [start] opens the diary and writes the files of the
    run directory; it changes neither the name nor the directory. *)
Definition start_named (fuel : nat) (env : Env) (description : string) (d : bool)
    (self : t) : list Event * t * Outcome :=
  if negb (isdir env (_resultsSubdir self)) then ([], self, Failed NoResultsDirectory)
  else if has_space description then ([], self, Failed SpaceInDescription)
  else
    match _name self with
    | Some _ => ([], self, Failed NoAttribute_finish)
    | None =>
        let self := set_diary d self in
        match basename_of env description with
        | (events, inr e) => (events, self, Failed e)
        | (events, inl basename) =>
            match mkdir_loop fuel env (_resultsSubdir self) basename 0 with
            | (more, Some name) => (events ++ more, set_name name self, Named)
            | (more, None) => (events ++ more, self, Looping)
            end
        end
    end.

(** The property [rundir] of an object constructed without
    [resumeExistingRun]. *)
Definition rundir (self : t) : option string :=
  match _name self with
  | Some name =>
      if String.eqb name EmptyString then None
      else Some (path_join (_resultsSubdir self) name)
  | None => None
  end.

End GitResultsManager.

(** The path tried at the [ii]-th turn of the loop. *)
Definition attempt (resultsSubdir basename : string) (ii : nat) : string :=
  path_join resultsSubdir (GitResultsManager.candidate basename ii).

(** The notices printed for the attempts before the [k]-th. *)
Definition notices (basename : string) (k : nat) : list GitResultsManager.Event :=
  map (fun ii => GitResultsManager.notice (GitResultsManager.candidate basename ii))
    (seq 0 k).

(** Events other than the creation of a directory. *)
Definition creates_nothing (e : GitResultsManager.Event) : bool :=
  match e with GitResultsManager.ev_mkdir _ => false | _ => true end.

(** Sample environments: a working directory that is no git
    repository, and one on branch [master]; [os.mkdir] raises for the
    paths in [taken]. *)
Definition env_without_git (taken : list string) : GitResultsManager.Env :=
  let refused := {| code := 128; out := EmptyString;
                    err := "fatal: Not a git repository" |} in
  {| GitResultsManager.isdir := fun p => String.eqb p "results";
     GitResultsManager.mkdir_raises := fun p => existsb (String.eqb p) taken;
     GitResultsManager.timestamp := "250101_120000";
     GitResultsManager.git_status := refused;
     GitResultsManager.git_rev_parse := refused;
     GitResultsManager.git_branch := refused |}.

Definition env_with_git (taken : list string) : GitResultsManager.Env :=
  {| GitResultsManager.isdir := fun p => String.eqb p "results";
     GitResultsManager.mkdir_raises := fun p => existsb (String.eqb p) taken;
     GitResultsManager.timestamp := "250101_120000";
     GitResultsManager.git_status :=
       {| code := 0; out := "# On branch master"; err := EmptyString |};
     GitResultsManager.git_rev_parse :=
       {| code := 0; out := String.append "abc1234" (String newline EmptyString);
          err := EmptyString |};
     GitResultsManager.git_branch :=
       {| code := 0; out := listing [(false, "dev"); (true, "master")];
          err := EmptyString |} |}.

(** The semaphore does not run ahead of the queue: there is a chunk
    for every unit the feeder can take, unless the input is to be
    closed. *)
Definition fed_ok (p : Process) : Prop :=
  _quit p = true \/ (_inputsem p <= length (_pending_input p))%nat.




(** In registry [m] the entry of handle [k] and the last handle issued
    are those of [m0]. *)
Definition same_entry (m0 : ProcessManager) (k : Z) (m : ProcessManager) : Prop :=
  __procs m !! k = __procs m0 !! k /\ __last_id m = __last_id m0.

(** * Properties *)

(** ** The monad *)

Lemma bind_Return {X A B} (m : M X A) (k : A -> M X B) st a st' :
  m st = (Return a, st') -> bind m k st = k a st'.
Proof. intros H. unfold bind. now rewrite H. Qed.

Lemma bind_Raise {X A B} (m : M X A) (k : A -> M X B) st e st' :
  m st = (Raise e, st') -> bind m k st = (Raise e, st').
Proof. intros H. unfold bind. now rewrite H. Qed.

Lemma bind_Stop {X A B} (m : M X A) (k : A -> M X B) st h st' :
  m st = (Stop h, st') -> bind m k st = (Stop h, st').
Proof. intros H. unfold bind. now rewrite H. Qed.

Lemma keeps_bind {X A B} (P : X -> Prop) (m : M X A) (k : A -> M X B) :
  keeps P m -> (forall a, keeps P (k a)) -> keeps P (bind m k).
Proof.
  intros Hm Hk x w HP. unfold self_after, bind.
  specialize (Hm x w HP). unfold self_after in Hm.
  destruct (m (x, w)) as [[a|e|h] [x' w']]; simpl in *; auto.
  apply (Hk a x' w' Hm).
Qed.

Lemma keeps_get_self {X B} (P : X -> Prop) (k : X -> M X B) :
  (forall x, P x -> keeps (fun y => y = x /\ P y) (k x)) ->
  keeps P (bind get_self k).
Proof.
  intros Hk x w HP. unfold self_after, bind, get_self. simpl.
  destruct (Hk x HP x w (conj eq_refl HP)) as [_ H]. exact H.
Qed.

Lemma keeps_try_except {X A} (P : X -> Prop) (m : M X A) h :
  keeps P m -> (forall e k, h e = Some k -> keeps P k) -> keeps P (try_except m h).
Proof.
  intros Hm Hh x w HP. unfold self_after, try_except.
  specialize (Hm x w HP). unfold self_after in Hm.
  destruct (m (x, w)) as [[a|e|hh] [x' w']]; simpl in *; auto.
  destruct (h e) as [k|] eqn:E; simpl; auto.
  apply (Hh e k E x' w' Hm).
Qed.

Lemma keeps_try_finally {X A} (P : X -> Prop) (m : M X A) fin :
  keeps P m -> keeps P fin -> keeps P (try_finally m fin).
Proof.
  intros Hm Hf x w HP. unfold self_after, try_finally.
  specialize (Hm x w HP). unfold self_after in Hm.
  destruct (m (x, w)) as [[a|e|hh] [x' w']]; simpl in *; auto;
    specialize (Hf x' w' Hm); unfold self_after in Hf;
    destruct (fin (x', w')) as [[u|e'|h'] [x'' w'']]; simpl in *; auto.
Qed.

Lemma world_only_keeps {X A} (P : X -> Prop) (m : M X A) :
  world_only m -> keeps P m.
Proof. intros H x w HP. now rewrite H. Qed.

Lemma world_only_bind {X A B} (m : M X A) (k : A -> M X B) :
  world_only m -> (forall a, world_only (k a)) -> world_only (bind m k).
Proof.
  intros Hm Hk x w. unfold self_after, bind.
  specialize (Hm x w). unfold self_after in Hm.
  destruct (m (x, w)) as [[a|e|h] [x' w']]; simpl in *; auto.
  rewrite <- Hm. apply (Hk a x' w').
Qed.

Lemma world_only_ret {X A} (a : A) : world_only (X:=X) (ret a).
Proof. now intros x w. Qed.

Lemma world_only_raise {X A} e : world_only (X:=X) (A:=A) (raise e).
Proof. now intros x w. Qed.

Lemma world_only_modify_world {X} f : world_only (X:=X) (modify_world f).
Proof. now intros x w. Qed.

Lemma world_only_get_world {X} : world_only (X:=X) get_world.
Proof. now intros x w. Qed.

Lemma world_only_time_time {X} : world_only (X:=X) time_time.
Proof. now intros x w. Qed.

Lemma world_only_signal_alarm {X} n : world_only (X:=X) (signal_alarm n).
Proof. now intros x w. Qed.

Lemma world_only_signal_signal {X} h : world_only (X:=X) (signal_signal h).
Proof. now intros x w. Qed.

Lemma world_only_new_SigAlarm {X} : world_only (X:=X) new_SigAlarm.
Proof. now intros x w. Qed.

Lemma world_only_deliver {X} : world_only (X:=X) deliver.
Proof. intros x w. unfold self_after, deliver. simpl. now destruct (sigalrm w). Qed.

Lemma world_only_os_kill_self {X} : world_only (X:=X) os_kill_self.
Proof.
  apply world_only_bind; [apply world_only_modify_world | intros; apply world_only_deliver].
Qed.

Lemma world_only_block {X} d : world_only (X:=X) (block d).
Proof.
  intros x w. unfold self_after, block. simpl.
  destruct (alarm_at w) as [t|]; [|now destruct d].
  destruct (match d with Some d0 => t <=? clock w + d0 | None => true end);
    [|now destruct d].
  unfold deliver. simpl. destruct (sigalrm w); simpl; auto. now destruct d.
Qed.

Lemma world_only_os_waitpid {X} pid flags : world_only (X:=X) (os_waitpid pid flags).
Proof.
  unfold os_waitpid.
  apply world_only_bind; [apply world_only_modify_world | intros _].
  apply world_only_bind; [apply world_only_get_world | intros w].
  destruct (children w !! pid) as [c|]; [|apply world_only_raise].
  destruct (reaped c); [apply world_only_raise|].
  destruct (is_zombie c (clock w)).
  { apply world_only_bind; [apply world_only_modify_world | intros; apply world_only_ret]. }
  destruct (Z.testbit flags 0); [apply world_only_ret|].
  destruct (exits c) as [[t s]|].
  - apply world_only_bind; [apply world_only_block | intros _].
    apply world_only_bind; [apply world_only_modify_world | intros; apply world_only_ret].
  - apply world_only_bind; [apply world_only_block | intros; apply world_only_ret].
Qed.

Lemma world_only_os_kill {X} pid sig : world_only (X:=X) (os_kill pid sig).
Proof.
  unfold os_kill.
  apply world_only_bind; [apply world_only_modify_world | intros _].
  apply world_only_bind; [apply world_only_get_world | intros w].
  destruct (children w !! pid) as [c|]; [|apply world_only_raise].
  destruct (reaped c); [apply world_only_raise|].
  destruct (is_zombie c (clock w)); [apply world_only_ret | apply world_only_modify_world].
Qed.

(** The guard itself touches nothing but the world. *)
Lemma keeps_with_timeout {X A} (P : X -> Prop) timeout (func : M X A) :
  keeps P func -> keeps P (with_timeout timeout func).
Proof.
  intros Hf. unfold with_timeout.
  apply keeps_bind; [apply world_only_keeps, world_only_new_SigAlarm | intros cls].
  apply keeps_bind; [apply world_only_keeps, world_only_signal_alarm | intros oldalarm].
  apply keeps_bind; [apply world_only_keeps, world_only_signal_signal | intros oldhandler].
  apply keeps_bind; [apply world_only_keeps, world_only_time_time | intros t0].
  apply keeps_try_finally.
  - apply keeps_try_except.
    + apply keeps_bind; [apply world_only_keeps, world_only_signal_alarm | auto].
    + intros e k. unfold except_SigAlarm.
      destruct e; try discriminate.
      destruct (Nat.eqb cls0 cls); [|discriminate].
      intros [= <-]. apply world_only_keeps, world_only_raise.
  - apply world_only_keeps.
    apply world_only_bind; [apply world_only_signal_alarm | intros _].
    apply world_only_bind; [apply world_only_signal_signal | intros _].
    destruct (negb (oldalarm =? 0)); [|apply world_only_ret].
    apply world_only_bind; [apply world_only_time_time | intros t1].
    destruct (oldalarm - int_round (t1 - t0) <=? 0); [apply world_only_os_kill_self|].
    apply world_only_bind; [apply world_only_signal_alarm | intros; apply world_only_ret].
Qed.

(** ** The cached exit status *)

Ltac step_m :=
  unfold bind, ret, raise, get_self, modify_self, get_world, modify_world; simpl.

Lemma wait_cached (p : Process) (w : World) (s flags : Z) :
  _exitstatus p = Some s -> Process.wait flags (p, w) = (Return (Some s), (p, w)).
Proof. intros H. unfold Process.wait. step_m. now rewrite H. Qed.

Lemma kill_cached (p : Process) (w : World) (s signal : Z) :
  _exitstatus p = Some s ->
  Process.kill signal (p, w) = (Raise (OSError ECHILD), (p, w)).
Proof. intros H. unfold Process.kill. step_m. now rewrite H. Qed.

Lemma keeps_wait s flags :
  keeps (fun p => _exitstatus p = Some s) (Process.wait flags).
Proof. intros p w H. unfold self_after. now rewrite (wait_cached p w s flags H). Qed.

Lemma keeps_kill s signal :
  keeps (fun p => _exitstatus p = Some s) (Process.kill signal).
Proof. intros p w H. unfold self_after. now rewrite (kill_cached p w s signal H). Qed.

Lemma keeps_closeinput s :
  keeps (fun p => _exitstatus p = Some s) Process.closeinput.
Proof. now intros p w H. Qed.

Lemma keeps_wait_or_pass s graceperiod :
  keeps (fun p => _exitstatus p = Some s) (Process.wait_or_pass graceperiod).
Proof.
  unfold Process.wait_or_pass. apply keeps_try_except.
  - apply keeps_bind; [apply keeps_with_timeout, keeps_wait|].
    intros a. apply world_only_keeps, world_only_ret.
  - intros e k. destruct e; try discriminate.
    intros [= <-]. apply world_only_keeps, world_only_ret.
Qed.

Lemma keeps_terminate s graceperiod :
  keeps (fun p => _exitstatus p = Some s) (Process.terminate graceperiod).
Proof.
  unfold Process.terminate.
  apply keeps_bind; [now intros p w H | intros self].
  apply keeps_bind.
  { destruct (stdin self).
    - apply keeps_bind; [apply keeps_closeinput | intros; apply keeps_wait_or_pass].
    - apply world_only_keeps, world_only_ret. }
  intros [r|]; [apply world_only_keeps, world_only_ret|].
  apply keeps_bind; [apply keeps_kill | intros _].
  apply keeps_bind; [apply keeps_wait_or_pass|].
  intros [r|]; [apply world_only_keeps, world_only_ret|].
  apply keeps_bind; [apply keeps_kill | intros; apply keeps_wait].
Qed.

Lemma feeder_loop_exitstatus sem (p : Process) :
  _exitstatus (snd (Process.feeder_loop sem p)) = _exitstatus p.
Proof.
  revert p. induction sem as [|sem IH]; intros p; simpl; [reflexivity|].
  destruct (_pending_input p) as [|data rest]; simpl.
  - now destruct (_quit p).
  - specialize (IH (set_pending_input rest (set_inputsem sem p))).
    destruct (Process.feeder_loop sem _) as [[written st] p']. simpl in *.
    now rewrite IH.
Qed.

Lemma keeps_call s c :
  keeps (fun p => _exitstatus p = Some s) (call c).
Proof.
  destruct c; unfold call, reply;
    (apply keeps_bind; [| intros; apply world_only_keeps, world_only_ret]).
  - apply keeps_kill.
  - apply keeps_wait.
  - apply keeps_terminate.
  - now intros p w H.
  - now intros p w H.
  - now intros p w H.
  - now intros p w H.
  - intros p w H. unfold self_after, Process.write. step_m. now destruct (stdin p).
  - apply keeps_closeinput.
  - now intros p w H.
  - now intros p w H.
  - intros p w H. unfold self_after, modify_self, Process._feeder. simpl.
    now rewrite feeder_loop_exitstatus.
Qed.

Lemma keeps_run {X Q} (P : X -> Prop) (step : Q -> M X Reply) qs :
  (forall q, keeps P (step q)) ->
  forall x w, P x -> P (fst (snd (run step qs (x, w)))).
Proof.
  intros Hs. induction qs as [|q qs IH]; intros x w HP; simpl; [exact HP|].
  specialize (Hs q x w HP). unfold self_after in Hs.
  destruct (step q (x, w)) as [[a|e|h] [x' w']]; simpl in *; auto;
    specialize (IH x' w' Hs);
    destruct (run step qs (x', w')) as [rs st'']; exact IH.
Qed.

(** C1.  Once [wait()] has cached an exit status, that status stays:
    [wait], with any flags, returns it and leaves the object and the
    operating system exactly as they were (so no further [waitpid] is
    made); no operation on the object and no turn of its threads
    changes it; and this remains so after any sequence of calls. *)
Theorem exitstatus_is_immutable :
  forall (p : Process) (w : World) (s : Z),
    _exitstatus p = Some s ->
    (forall flags, Process.wait flags (p, w) = (Return (Some s), (p, w))) /\
    (forall c, _exitstatus (self_after (call c) (p, w)) = Some s) /\
    (forall cs flags,
        let st := snd (run call cs (p, w)) in
        _exitstatus (fst st) = Some s /\
        Process.wait flags st = (Return (Some s), st)).
Proof.
  intros p w s H. split; [|split].
  - intros flags. now apply wait_cached.
  - intros c. now apply (keeps_call s c p w).
  - intros cs flags st.
    assert (Hst : _exitstatus (fst st) = Some s).
    { subst st. now apply (keeps_run (fun p => _exitstatus p = Some s) call cs (keeps_call s)). }
    split; [exact Hst|].
    destruct st as [p' w']. now apply wait_cached.
Qed.

(** ** Methods that only steer the process *)

Section Steering.
Variable P : Process -> Prop.
Hypothesis P_exitstatus : forall p s, P p -> P (set_exitstatus s p).
Hypothesis P_closeinput :
  forall p, P p -> P (set_inputsem (S (_inputsem p)) (set_quit true p)).

Lemma steer_closeinput : keeps P Process.closeinput.
Proof. intros p w H. now apply P_closeinput. Qed.

Lemma steer_kill signal : keeps P (Process.kill signal).
Proof.
  unfold Process.kill. apply keeps_bind; [now intros p w H | intros self].
  destruct (_exitstatus self).
  - apply world_only_keeps, world_only_raise.
  - apply world_only_keeps, world_only_os_kill.
Qed.

Lemma steer_wait flags : keeps P (Process.wait flags).
Proof.
  unfold Process.wait. apply keeps_bind; [now intros p w H | intros self].
  destruct (_exitstatus self); [apply world_only_keeps, world_only_ret|].
  apply keeps_bind; [apply world_only_keeps, world_only_os_waitpid | intros [pid' st]].
  destruct (pid' =? 0); [apply world_only_keeps, world_only_ret|].
  apply keeps_bind; [| intros; apply world_only_keeps, world_only_ret].
  destruct (WIFEXITED st || WIFSIGNALED st); [|apply world_only_keeps, world_only_ret].
  apply keeps_bind; [intros p w H; now apply P_exitstatus | intros _].
  apply keeps_bind.
  { destruct (stdin self); [apply steer_closeinput | apply world_only_keeps, world_only_ret]. }
  intros _. apply keeps_bind.
  { destruct (stdout self); apply world_only_keeps, world_only_ret. }
  intros _. destruct (stderr self); apply world_only_keeps, world_only_ret.
Qed.

Lemma steer_wait_or_pass graceperiod : keeps P (Process.wait_or_pass graceperiod).
Proof.
  unfold Process.wait_or_pass. apply keeps_try_except.
  - apply keeps_bind; [apply keeps_with_timeout, steer_wait|].
    intros a. apply world_only_keeps, world_only_ret.
  - intros e k. destruct e; try discriminate.
    intros [= <-]. apply world_only_keeps, world_only_ret.
Qed.

Lemma steer_terminate graceperiod : keeps P (Process.terminate graceperiod).
Proof.
  unfold Process.terminate.
  apply keeps_bind; [now intros p w H | intros self].
  apply keeps_bind.
  { destruct (stdin self).
    - apply keeps_bind; [apply steer_closeinput | intros; apply steer_wait_or_pass].
    - apply world_only_keeps, world_only_ret. }
  intros [r|]; [apply world_only_keeps, world_only_ret|].
  apply keeps_bind; [apply steer_kill | intros _].
  apply keeps_bind; [apply steer_wait_or_pass|].
  intros [r|]; [apply world_only_keeps, world_only_ret|].
  apply keeps_bind; [apply steer_kill | intros; apply steer_wait].
Qed.
End Steering.

Lemma exitstatus_is_immutable_witness :
  Process.wait WNOHANG (set_exitstatus (Some 0) (fresh_process true), boot) =
    (Return (Some 0), (set_exitstatus (Some 0) (fresh_process true), boot)) /\
  _exitstatus (self_after (call (c_terminate 1))
                 (set_exitstatus (Some 0) (fresh_process true), boot)) = Some 0.
Proof.
  destruct (exitstatus_is_immutable (set_exitstatus (Some 0) (fresh_process true)) boot 0
              eq_refl) as (Hwait & Hcall & _).
  split; [apply Hwait | apply Hcall].
Defined.

(** ** Reading the buffers *)

Lemma append_assoc (a b c : string) :
  String.append (String.append a b) c = String.append a (String.append b c).
Proof.
  induction a as [|ch a IH]; [reflexivity|].
  change (String ch (String.append (String.append a b) c) =
          String ch (String.append a (String.append b c))).
  now rewrite IH.
Qed.

Lemma str_join_app (l1 l2 : list string) :
  str_join (l1 ++ l2) = String.append (str_join l1) (str_join l2).
Proof.
  induction l1 as [|a l1 IH]; [reflexivity|].
  change (String.append a (str_join (l1 ++ l2)) =
          String.append (String.append a (str_join l1)) (str_join l2)).
  now rewrite IH, append_assoc.
Qed.

Lemma feeder_loop_buffers sem (p : Process) :
  _collected_outdata (snd (Process.feeder_loop sem p)) = _collected_outdata p /\
  _collected_errdata (snd (Process.feeder_loop sem p)) = _collected_errdata p.
Proof.
  revert p. induction sem as [|sem IH]; intros p; simpl; [easy|].
  destruct (_pending_input p) as [|data rest]; simpl.
  - now destruct (_quit p).
  - specialize (IH (set_pending_input rest (set_inputsem sem p))).
    destruct (Process.feeder_loop sem _) as [[written st] p']. simpl in *. exact IH.
Qed.

Lemma call_out_buffer c (p : Process) w :
  reads_out c = false ->
  _collected_outdata (self_after (call c) (p, w)) = _collected_outdata p ++ out_chunks [c].
Proof.
  intros Hc.
  pose (P := fun q : Process => _collected_outdata q = _collected_outdata p).
  assert (HP : P p) by reflexivity.
  assert (Hret : forall (m : M Process Reply), keeps P m ->
            _collected_outdata (self_after m (p, w)) = _collected_outdata p ++ []).
  { intros m Hm. rewrite app_nil_r. exact (Hm p w HP). }
  destruct c; try discriminate; unfold call, reply; simpl out_chunks;
    try (apply Hret; apply keeps_bind; [| intros; apply world_only_keeps, world_only_ret]).
  - now apply steer_kill.
  - now apply steer_wait.
  - now apply steer_terminate.
  - now intros q w' H.
  - now intros q w' H.
  - intros q w' H. unfold self_after, Process.write. step_m. now destruct (stdin q).
  - now apply steer_closeinput.
  - reflexivity.
  - now intros q w' H.
  - intros q w' H. unfold P in *. unfold self_after, modify_self, Process._feeder.
    simpl. now rewrite (proj1 (feeder_loop_buffers _ _)).
Qed.

Lemma call_err_buffer c (p : Process) w :
  reads_err c = false ->
  _collected_errdata (self_after (call c) (p, w)) = _collected_errdata p ++ err_chunks [c].
Proof.
  intros Hc.
  pose (P := fun q : Process => _collected_errdata q = _collected_errdata p).
  assert (HP : P p) by reflexivity.
  assert (Hret : forall (m : M Process Reply), keeps P m ->
            _collected_errdata (self_after m (p, w)) = _collected_errdata p ++ []).
  { intros m Hm. rewrite app_nil_r. exact (Hm p w HP). }
  destruct c; try discriminate; unfold call, reply; simpl err_chunks;
    try (apply Hret; apply keeps_bind; [| intros; apply world_only_keeps, world_only_ret]).
  - now apply steer_kill.
  - now apply steer_wait.
  - now apply steer_terminate.
  - now intros q w' H.
  - now intros q w' H.
  - intros q w' H. unfold self_after, Process.write. step_m. now destruct (stdin q).
  - now apply steer_closeinput.
  - now intros q w' H.
  - reflexivity.
  - intros q w' H. unfold P in *. unfold self_after, modify_self, Process._feeder.
    simpl. now rewrite (proj2 (feeder_loop_buffers _ _)).
Qed.

Lemma run_cons {X Q} (step : Q -> M X Reply) q qs st :
  stopped (fst (step q st)) = false ->
  run step (q :: qs) st =
    (fst (step q st) :: fst (run step qs (snd (step q st))),
     snd (run step qs (snd (step q st)))).
Proof.
  intros H. simpl. destruct (step q st) as [[a|e|h] st']; simpl in *;
    try discriminate; now destruct (run step qs st').
Qed.

Lemma run_served_cons {X Q} (step : Q -> M X Reply) q qs st :
  all_served (fst (run step (q :: qs) st)) = true ->
  stopped (fst (step q st)) = false /\
  all_served (fst (run step qs (snd (step q st)))) = true.
Proof.
  unfold all_served. simpl.
  destruct (step q st) as [[a|e|h] st']; simpl;
    try discriminate; now destruct (run step qs st').
Qed.

Lemma run_out_buffer cs : forall (p : Process) w,
  forallb (fun c => negb (reads_out c)) cs = true ->
  all_served (fst (run call cs (p, w))) = true ->
  _collected_outdata (fst (snd (run call cs (p, w)))) = _collected_outdata p ++ out_chunks cs.
Proof.
  induction cs as [|c cs IH]; intros p w Hcs Hrun.
  - simpl. now rewrite app_nil_r.
  - simpl in Hcs. apply andb_prop in Hcs as [Hc Hcs].
    apply negb_true_iff in Hc.
    apply run_served_cons in Hrun as [Hstep Hrun].
    rewrite (run_cons _ _ _ _ Hstep). simpl snd.
    pose proof (call_out_buffer c p w Hc) as Hbuf. unfold self_after in Hbuf.
    destruct (call c (p, w)) as [r [p' w']]. simpl in *.
    rewrite (IH p' w' Hcs Hrun), Hbuf, <- app_assoc. f_equal.
    now destruct c.
Qed.

Lemma run_err_buffer cs : forall (p : Process) w,
  forallb (fun c => negb (reads_err c)) cs = true ->
  all_served (fst (run call cs (p, w))) = true ->
  _collected_errdata (fst (snd (run call cs (p, w)))) = _collected_errdata p ++ err_chunks cs.
Proof.
  induction cs as [|c cs IH]; intros p w Hcs Hrun.
  - simpl. now rewrite app_nil_r.
  - simpl in Hcs. apply andb_prop in Hcs as [Hc Hcs].
    apply negb_true_iff in Hc.
    apply run_served_cons in Hrun as [Hstep Hrun].
    rewrite (run_cons _ _ _ _ Hstep). simpl snd.
    pose proof (call_err_buffer c p w Hc) as Hbuf. unfold self_after in Hbuf.
    destruct (call c (p, w)) as [r [p' w']]. simpl in *.
    rewrite (IH p' w' Hcs Hrun), Hbuf, <- app_assoc. f_equal.
    now destruct c.
Qed.

Lemma call_reads_out_empties prev (p : Process) w :
  reads_out prev = true -> _collected_outdata (self_after (call prev) (p, w)) = [].
Proof. now destruct prev. Qed.

Lemma call_reads_err_empties prev (p : Process) w :
  reads_err prev = true -> _collected_errdata (self_after (call prev) (p, w)) = [].
Proof. now destruct prev. Qed.

(** C4.  [read], [readerr] and [readboth] return the chunks of their
    buffer joined in order, leave that buffer empty and every other
    field, the clock and the system-call log as they were, and return
    at once.  What they return is exactly what the reader thread
    appended since the buffer was last emptied, whatever other calls
    came in between; right after the spawn it is the empty string. *)
Theorem read_snapshots_and_clears :
  forall (p : Process) (w : World),
    Process.read (p, w) =
      (Return (str_join (_collected_outdata p)),
       ({| pid := pid p; stdin := stdin p; stdout := stdout p; stderr := stderr p;
           _pending_input := _pending_input p; _collected_outdata := [];
           _collected_errdata := _collected_errdata p;
           _exitstatus := _exitstatus p; _inputsem := _inputsem p;
           _quit := _quit p |}, w)) /\
    Process.readerr (p, w) =
      (Return (str_join (_collected_errdata p)),
       ({| pid := pid p; stdin := stdin p; stdout := stdout p; stderr := stderr p;
           _pending_input := _pending_input p;
           _collected_outdata := _collected_outdata p; _collected_errdata := [];
           _exitstatus := _exitstatus p; _inputsem := _inputsem p;
           _quit := _quit p |}, w)) /\
    Process.readboth (p, w) =
      (Return (str_join (_collected_outdata p), str_join (_collected_errdata p)),
       ({| pid := pid p; stdin := stdin p; stdout := stdout p; stderr := stderr p;
           _pending_input := _pending_input p;
           _collected_outdata := []; _collected_errdata := [];
           _exitstatus := _exitstatus p; _inputsem := _inputsem p;
           _quit := _quit p |}, w)) /\
    (forall prev cs,
        reads_out prev = true ->
        forallb (fun c => negb (reads_out c)) cs = true ->
        all_served (fst (run call cs (snd (call prev (p, w))))) = true ->
        fst (Process.read (snd (run call cs (snd (call prev (p, w)))))) =
          Return (str_join (out_chunks cs))) /\
    (forall prev cs,
        reads_err prev = true ->
        forallb (fun c => negb (reads_err c)) cs = true ->
        all_served (fst (run call cs (snd (call prev (p, w))))) = true ->
        fst (Process.readerr (snd (run call cs (snd (call prev (p, w)))))) =
          Return (str_join (err_chunks cs))) /\
    (forall cs,
        forallb (fun c => negb (reads_out c) && negb (reads_err c)) cs = true ->
        all_served (fst (run call cs (snd (call c_readboth (p, w))))) = true ->
        fst (Process.readboth (snd (run call cs (snd (call c_readboth (p, w)))))) =
          Return (str_join (out_chunks cs), str_join (err_chunks cs))) /\
    (forall (prog : Program) (i o e : bool) (q : Process) (w' : World),
        Process.__init__ prog i o e (tt, w) = (Return q, (tt, w')) ->
        Process.read (q, w') = (Return EmptyString, (q, w')) /\
        Process.readerr (q, w') = (Return EmptyString, (q, w')) /\
        Process.readboth (q, w') = (Return (EmptyString, EmptyString), (q, w'))).
Proof.
  intros p w. repeat split; try reflexivity.
  - intros prev cs Hprev Hcs Hrun.
    pose proof (call_reads_out_empties prev p w Hprev) as H0. unfold self_after in H0.
    destruct (call prev (p, w)) as [r0 [p0 w0]]. simpl in *.
    pose proof (run_out_buffer cs p0 w0 Hcs Hrun) as H.
    destruct (run call cs (p0, w0)) as [rs [p1 w1]]. simpl in *.
    unfold Process.read. step_m. now rewrite H, H0.
  - intros prev cs Hprev Hcs Hrun.
    pose proof (call_reads_err_empties prev p w Hprev) as H0. unfold self_after in H0.
    destruct (call prev (p, w)) as [r0 [p0 w0]]. simpl in *.
    pose proof (run_err_buffer cs p0 w0 Hcs Hrun) as H.
    destruct (run call cs (p0, w0)) as [rs [p1 w1]]. simpl in *.
    unfold Process.readerr. step_m. now rewrite H, H0.
  - intros cs Hcs Hrun.
    assert (Ho : forallb (fun c => negb (reads_out c)) cs = true).
    { clear -Hcs. induction cs as [|c cs IH]; [reflexivity|]. simpl in *.
      apply andb_prop in Hcs as [Hc Hcs]. apply andb_prop in Hc as [-> _]. auto. }
    assert (He : forallb (fun c => negb (reads_err c)) cs = true).
    { clear -Hcs. induction cs as [|c cs IH]; [reflexivity|]. simpl in *.
      apply andb_prop in Hcs as [Hc Hcs]. apply andb_prop in Hc as [_ ->]. auto. }
    remember (snd (call c_readboth (p, w))) as st0 eqn:E.
    assert (H0 : _collected_outdata (fst st0) = [] /\ _collected_errdata (fst st0) = [])
      by (now subst st0).
    clear E. destruct st0 as [p0 w0]. simpl in H0. destruct H0 as [H0 H0'].
    pose proof (run_out_buffer cs p0 w0 Ho Hrun) as H.
    pose proof (run_err_buffer cs p0 w0 He Hrun) as H'.
    destruct (run call cs (p0, w0)) as [rs [p1 w1]]. simpl in *.
    unfold Process.readboth. step_m. now rewrite H, H', H0, H0'.
  - revert H. unfold Process.__init__, Popen. step_m.
    destruct (spawn_error prog); [discriminate|]. simpl. now intros [= <- <-].
  - revert H. unfold Process.__init__, Popen. step_m.
    destruct (spawn_error prog); [discriminate|]. simpl. now intros [= <- <-].
  - revert H. unfold Process.__init__, Popen. step_m.
    destruct (spawn_error prog); [discriminate|]. simpl. now intros [= <- <-].
Qed.

Lemma read_snapshots_and_clears_witness :
  fst (Process.read
         (snd (run call [c_reader_out "he"; c_write "x"; c_reader_err "!"; c_reader_out "llo"]
                 (snd (call c_read (fresh_process true, boot)))))) =
    Return "hello".
Proof.
  apply (proj1 (proj2 (proj2 (proj2
           (read_snapshots_and_clears (fresh_process true) boot)))) c_read
           [c_reader_out "he"; c_write "x"; c_reader_err "!"; c_reader_out "llo"]);
    reflexivity.
Defined.

(** ** Signals *)



(** ** Feeding standard input *)

Lemma feeder_loop_drains : forall (pending : list string) (p : Process),
  _pending_input p = pending ->
  fst (Process.feeder_loop (length pending) p) = (pending, Process.feeder_waiting).
Proof.
  induction pending as [|data rest IH]; intros p Hp; simpl; [reflexivity|].
  rewrite Hp.
  specialize (IH (set_pending_input rest (set_inputsem (length rest) p)) eq_refl).
  destruct (Process.feeder_loop (length rest) _) as [[written st] p'].
  simpl in *. now inversion IH.
Qed.

Lemma feeder_loop_closes : forall (pending : list string) (n : nat) (p : Process),
  _pending_input p = pending -> _quit p = true ->
  (length pending < n)%nat ->
  fst (Process.feeder_loop n p) = (pending, Process.feeder_closed).
Proof.
  induction pending as [|data rest IH]; intros n p Hp Hq Hn;
    (destruct n as [|n]; [simpl in Hn; lia|]); simpl; rewrite Hp.
  - now rewrite Hq.
  - simpl in Hn.
    specialize (IH n (set_pending_input rest (set_inputsem n p)) eq_refl Hq ltac:(lia)).
    destruct (Process.feeder_loop n _) as [[written st] p'].
    simpl in *. now inversion IH.
Qed.

(** C7.  [write] raises [ValueError] when standard input is not a pipe
    and then changes nothing.  Otherwise it returns at once, whatever
    the length of the queue: the chunk becomes the last element of the
    pending queue, the semaphore is released once, nothing else
    changes, and no system call is made.  The feeder, which takes from
    the front, writes the new chunk after all older ones. *)
Theorem write_appends_or_fails :
  forall (p : Process) (w : World) (data : string),
    (stdin p = false -> Process.write data (p, w) = (Raise ValueError, (p, w))) /\
    (stdin p = true ->
     Process.write data (p, w) =
       (Return tt,
        ({| pid := pid p; stdin := stdin p; stdout := stdout p; stderr := stderr p;
            _pending_input := _pending_input p ++ [data];
            _collected_outdata := _collected_outdata p;
            _collected_errdata := _collected_errdata p;
            _exitstatus := _exitstatus p; _inputsem := S (_inputsem p);
            _quit := _quit p |}, w)) /\
     (_inputsem p = length (_pending_input p) ->
      fst (Process._feeder (fst (snd (Process.write data (p, w))))) =
        (_pending_input p ++ [data], Process.feeder_waiting))).
Proof.
  intros p w data. unfold Process.write, set_inputsem, set_pending_input. step_m.
  split; intros H; rewrite H; simpl.
  - reflexivity.
  - split; [now rewrite ?H|]. intros Hsem. unfold Process._feeder. simpl _inputsem.
    rewrite Hsem.
    replace (S (length (_pending_input p))) with (length (_pending_input p ++ [data]))
      by (rewrite length_app; simpl; lia).
    now apply feeder_loop_drains.
Qed.

Lemma write_appends_or_fails_witness :
  Process.write "ping" (fresh_process false, boot) =
    (Raise ValueError, (fresh_process false, boot)) /\
  fst (Process._feeder (fst (snd (Process.write "ping" (fresh_process true, boot))))) =
    (["ping"], Process.feeder_waiting).
Proof.
  split.
  - apply (proj1 (write_appends_or_fails (fresh_process false) boot "ping")). reflexivity.
  - apply (proj2 (proj2 (write_appends_or_fails (fresh_process true) boot "ping") eq_refl)).
    reflexivity.
Defined.

(** C6, as the code has it.  [closeinput] never fails, whether or not
    standard input is a pipe: it sets [_quit], releases the semaphore
    once and changes nothing else.  A second call releases the
    semaphore once more and changes nothing else; as long as the
    semaphore covers the queue, the feeder writes the same chunks and
    closes the stream just the same after one call as after two. *)
Theorem closeinput_sets_quit :
  forall (p : Process) (w : World),
    let once :=
      {| pid := pid p; stdin := stdin p; stdout := stdout p; stderr := stderr p;
         _pending_input := _pending_input p;
         _collected_outdata := _collected_outdata p;
         _collected_errdata := _collected_errdata p;
         _exitstatus := _exitstatus p; _inputsem := S (_inputsem p);
         _quit := true |} in
    let twice :=
      {| pid := pid p; stdin := stdin p; stdout := stdout p; stderr := stderr p;
         _pending_input := _pending_input p;
         _collected_outdata := _collected_outdata p;
         _collected_errdata := _collected_errdata p;
         _exitstatus := _exitstatus p; _inputsem := S (S (_inputsem p));
         _quit := true |} in
    Process.closeinput (p, w) = (Return tt, (once, w)) /\
    Process.closeinput (once, w) = (Return tt, (twice, w)) /\
    ((length (_pending_input p) <= _inputsem p)%nat ->
     fst (Process._feeder once) = (_pending_input p, Process.feeder_closed) /\
     fst (Process._feeder twice) = (_pending_input p, Process.feeder_closed)).
Proof.
  intros p w once twice. split; [reflexivity|]. split; [reflexivity|].
  intros Hsem. unfold Process._feeder.
  split; apply feeder_loop_closes; subst once twice; simpl; auto; lia.
Qed.

Lemma closeinput_sets_quit_witness :
  fst (Process._feeder (fst (snd (Process.closeinput
         (fst (snd (Process.write "ping" (fresh_process true, boot))), boot))))) =
    (["ping"], Process.feeder_closed).
Proof.
  apply (proj2 (proj2 (closeinput_sets_quit
           (fst (snd (Process.write "ping" (fresh_process true, boot)))) boot))).
  simpl. lia.
Defined.

(** C6 as stated fails: on a process constructed with standard input
    not a pipe, [closeinput] returns normally. *)
Lemma closeinput_without_stdin_returns :
  Process.__init__ stubborn false true true (tt, boot) =
    (Return (fresh_process false), (tt, world_with stubborn)) /\
  stdin (fresh_process false) = false /\
  fst (Process.closeinput (fresh_process false, world_with stubborn)) = Return tt /\
  fst (Process.closeinput (fresh_process false, world_with stubborn)) <> Raise ValueError.
Proof. repeat split; try reflexivity. discriminate. Qed.

(** ** The deadline guard, phase by phase *)

Lemma seconds_left_pos ms : 1 <= seconds_left ms.
Proof. unfold seconds_left. lia. Qed.

Lemma old_alarm_pending w t : alarm_at w = Some t -> 1 <= old_alarm w.
Proof. intros H. unfold old_alarm. rewrite H. apply seconds_left_pos. Qed.

Lemma old_alarm_none w : alarm_at w = None -> old_alarm w = 0.
Proof. intros H. unfold old_alarm. now rewrite H. Qed.

(** The guard runs its function in the world [entered], turns its own
    alarm into [Timeout], takes its timer down and then either is done
    (no outer timer), re-arms the outer timer, or sends [SIGALRM] to
    the interpreter. *)
Lemma with_timeout_phases {X A} (timeout : Z) (func : M X A) (x : X) (w : World) :
  with_timeout timeout func (x, w) =
    match func (x, entered timeout w) with
    | (Stop h, st) => (Stop h, st)
    | (r, (x', w1)) =>
        let w2 := taken_down w w1 in
        if old_alarm w =? 0 then (guarded (classes w) r, (x', w2))
        else if remaining w w1 <=? 0 then
          match sigalrm w with
          | SIG_DFL => (Stop (Killed SIGALRM), (x', log (sys_raise SIGALRM) w2))
          | SIG_IGN => (guarded (classes w) r, (x', log (sys_raise SIGALRM) w2))
          | alarm_handler c => (Raise (SigAlarm c), (x', log (sys_raise SIGALRM) w2))
          end
        else
          (guarded (classes w) r,
           (x', log (sys_alarm (remaining w w1))
                  (set_alarm_at (Some (clock w1 + 1000 * remaining w w1)) w2)))
    end.
Proof.
  unfold with_timeout, new_SigAlarm, signal_alarm, signal_signal, time_time,
    try_finally, try_except, os_kill_self, deliver, remaining, taken_down.
  step_m. fold (old_alarm w). fold (entered timeout w).
  assert (Hpos : forall r : Z, (r <=? 0) = false -> (r =? 0) = false) by (intros; lia).
  destruct (func (x, entered timeout w)) as [[a|e|h] [x' w1]]; simpl;
    [ | destruct e; simpl; try destruct (Nat.eqb cls (classes w)); simpl | reflexivity ];
    (destruct (old_alarm w =? 0) eqn:E0; simpl; [reflexivity|];
     destruct (old_alarm w - int_round (clock w1 - clock w) <=? 0) eqn:Er; simpl;
     [ destruct (sigalrm w); reflexivity | now rewrite (Hpos _ Er) ]).
Qed.

Lemma sleep_then_guarded {X A} (x : X) (w : World) (timeout d : Z) (v : A) :
  1 <= timeout -> 0 <= d ->
  sleep_then d v (x, entered timeout w) =
    if d <? 1000 * timeout
    then (Return v, (x, set_clock (clock w + d) (entered timeout w)))
    else (Raise (SigAlarm (classes w)),
          (x, set_alarm_at None
                (set_clock (clock w + 1000 * timeout) (entered timeout w)))).
Proof.
  intros Ht Hd. unfold sleep_then, block, deliver. step_m.
  destruct (timeout =? 0) eqn:E0; [lia|]. simpl.
  destruct (clock w + 1000 * timeout <=? clock w + d) eqn:E1;
    destruct (d <? 1000 * timeout) eqn:E2; try lia; simpl; [|reflexivity].
  replace (Z.max (clock w) (clock w + 1000 * timeout)) with (clock w + 1000 * timeout)
    by lia.
  reflexivity.
Qed.

Lemma sleep_then_unguarded {X A} (x : X) (w : World) (d : Z) (v : A) :
  alarm_at w = None ->
  sleep_then d v (x, w) = (Return v, (x, set_clock (clock w + d) w)).
Proof. intros H. unfold sleep_then, block. step_m. now rewrite H. Qed.

Lemma pending_alarm_guarded {X} (x : X) (w : World) (timeout : Z) :
  fst (with_timeout timeout pending_alarm (x, w)) =
    Return (if timeout =? 0 then None else Some (clock w + 1000 * timeout)).
Proof.
  rewrite with_timeout_phases. unfold pending_alarm. step_m.
  destruct (old_alarm w =? 0) eqn:E0; [reflexivity|].
  unfold remaining. simpl. rewrite Z.sub_diag.
  change (int_round 0) with 0.
  destruct (old_alarm w - 0 <=? 0) eqn:E1; [|reflexivity].
  unfold old_alarm in *. destruct (alarm_at w) as [t|]; [|discriminate].
  pose proof (seconds_left_pos (t - clock w)). lia.
Qed.




Lemma sleep_forever_unguarded {X A} (x : X) (w : World) :
  alarm_at w = None ->
  sleep_forever (A:=A) (x, w) = (Stop Blocked, (x, w)).
Proof. intros H. unfold sleep_forever, block. step_m. now rewrite H. Qed.

Lemma guarded_not_Timeout {A} cls (r : Result A) :
  r <> Raise Timeout -> r <> Raise (SigAlarm cls) -> guarded cls r <> Raise Timeout.
Proof.
  intros H1 H2. destruct r as [a|e|h]; simpl; auto.
  destruct e; auto. destruct (Nat.eqb cls0 cls) eqn:E; auto.
  apply Nat.eqb_eq in E. now subst.
Qed.

(** With a duration of 0 the guard never raises [Timeout] on account
    of its own exception: [Timeout] comes out only if the function
    itself produced it (or the guard's private class). *)
Lemma with_timeout_0_no_Timeout {X A} (func : M X A) (x : X) (w : World) :
  fst (func (x, entered 0 w)) <> Raise Timeout ->
  fst (func (x, entered 0 w)) <> Raise (SigAlarm (classes w)) ->
  fst (with_timeout 0 func (x, w)) <> Raise Timeout.
Proof.
  intros H1 H2. rewrite with_timeout_phases.
  destruct (func (x, entered 0 w)) as [r [x' w1]]. simpl in H1, H2.
  pose proof (guarded_not_Timeout (classes w) r H1 H2) as Hg.
  destruct r as [a|e|h]; try discriminate;
    (destruct (old_alarm w =? 0); [exact Hg|];
     destruct (remaining w w1 <=? 0); [|exact Hg];
     destruct (sigalrm w); simpl; try discriminate; exact Hg).
Qed.

(** C10.  With a duration of 0 no expiration is armed while the
    function runs, whatever was pending before.  A function that needs
    [d] ms is therefore never cut short, however large [d] is: the
    guard raises no [Timeout], the clock has advanced by the full [d]
    when it is left, and without an outer timer the value is returned.
    A function that never returns keeps the guard waiting for ever. *)
Theorem zero_duration_means_no_deadline :
  forall {X A} (x : X) (w : World),
    fst (with_timeout 0 pending_alarm (x, w)) = Return None /\
    (forall (d : Z) (v : A),
        0 <= d ->
        fst (with_timeout 0 (sleep_then d v) (x, w)) <> Raise Timeout /\
        clock (snd (snd (with_timeout 0 (sleep_then d v) (x, w)))) = clock w + d /\
        (alarm_at w = None ->
         fst (with_timeout 0 (sleep_then d v) (x, w)) = Return v)) /\
    (alarm_at w = None ->
     fst (with_timeout 0 (sleep_forever (A:=A)) (x, w)) = Stop Blocked).
Proof.
  intros X A x w. split; [apply (pending_alarm_guarded x w 0)|]. split.
  - intros d v Hd.
    assert (Hrun : sleep_then d v (x, entered 0 w) =
                   (Return v, (x, set_clock (clock w + d) (entered 0 w))))
      by (now rewrite sleep_then_unguarded).
    split; [|split].
    + apply with_timeout_0_no_Timeout; rewrite Hrun; discriminate.
    + rewrite with_timeout_phases, Hrun.
      destruct (old_alarm w =? 0); [reflexivity|].
      destruct (remaining w _ <=? 0); [|reflexivity].
      destruct (sigalrm w); reflexivity.
    + intros Hw. rewrite with_timeout_phases, Hrun.
      now rewrite (old_alarm_none w Hw).
  - intros Hw. rewrite with_timeout_phases.
    now rewrite sleep_forever_unguarded.
Qed.

Lemma zero_duration_means_no_deadline_witness :
  fst (with_timeout 0 (sleep_then 3600000 7) (tt, boot)) = Return 7 /\
  fst (with_timeout 0 (sleep_forever (A:=Z)) (tt, boot)) = Stop Blocked.
Proof.
  destruct (zero_duration_means_no_deadline (A:=Z) tt boot) as (_ & Hd & Hf).
  split.
  - apply (Hd 3600000 7); [lia | reflexivity].
  - apply Hf. reflexivity.
Defined.

(** ** Terminating a process whose exit status is cached *)

Lemma guarded_wait_cached (p : Process) (w : World) (s graceperiod : Z) :
  _exitstatus p = Some s ->
  exists w',
    with_timeout graceperiod (Process.wait 0) (p, w) = (Return (Some s), (p, w')) /\
    clock w' = clock w /\ children w' = children w /\ sigalrm w' = sigalrm w /\
    exists extra, syslog w' = syslog w ++ extra /\ forallb timer_call extra = true.
Proof.
  intros H. rewrite with_timeout_phases, (wait_cached p _ s 0 H).
  destruct (old_alarm w =? 0) eqn:E0.
  - eexists. split; [reflexivity|]. simpl. repeat split.
    eexists. rewrite <- !app_assoc. split; reflexivity.
  - unfold remaining. simpl. rewrite Z.sub_diag. change (int_round 0) with 0.
    assert (Hold : 1 <= old_alarm w).
    { unfold old_alarm in *. destruct (alarm_at w); [apply seconds_left_pos | discriminate]. }
    destruct (old_alarm w - 0 <=? 0) eqn:E1; [lia|].
    eexists. split; [reflexivity|]. simpl. repeat split.
    eexists. rewrite <- !app_assoc. split; reflexivity.
Qed.

(** C9.  On a process whose exit status is cached, [terminate] depends
    on how the process was constructed.  With standard input a pipe it
    closes the input, the guarded [wait] of the first stage returns the
    cached status at once and [terminate] returns it: no time passes
    and no system call other than those of the alarm timer is made.
    With standard input not a pipe it goes straight to [kill], which
    raises [OSError] with errno [ECHILD], and so does [terminate]. *)
Theorem terminate_after_exit :
  forall (p : Process) (w : World) (s graceperiod : Z),
    _exitstatus p = Some s ->
    (stdin p = true ->
     exists w',
       Process.terminate graceperiod (p, w) =
         (Return (Some s), (set_inputsem (S (_inputsem p)) (set_quit true p), w')) /\
       clock w' = clock w /\ children w' = children w /\
       exists extra, syslog w' = syslog w ++ extra /\ forallb timer_call extra = true) /\
    (stdin p = false ->
     Process.terminate graceperiod (p, w) = (Raise (OSError ECHILD), (p, w))).
Proof.
  intros p w s graceperiod H. split; intros Hin.
  - destruct (guarded_wait_cached (set_inputsem (S (_inputsem p)) (set_quit true p))
                w s graceperiod H) as (w' & Hw & Hc & Hch & _ & Hlog).
    exists w'. split; [|auto].
    unfold Process.terminate, Process.wait_or_pass, Process.closeinput, try_except.
    step_m. rewrite Hin. simpl. now rewrite Hw.
  - unfold Process.terminate, Process.kill. step_m. rewrite Hin. simpl. now rewrite H.
Qed.

Lemma terminate_after_exit_witness :
  fst (Process.terminate 1 (set_exitstatus (Some 0) (fresh_process true), boot)) =
    Return (Some 0) /\
  fst (Process.terminate 1 (set_exitstatus (Some 0) (fresh_process false), boot)) =
    Raise (OSError ECHILD).
Proof.
  split.
  - destruct (proj1 (terminate_after_exit (set_exitstatus (Some 0) (fresh_process true))
                       boot 0 1 eq_refl) eq_refl) as (w' & H & _).
    now rewrite H.
  - now rewrite (proj2 (terminate_after_exit (set_exitstatus (Some 0) (fresh_process false))
                          boot 0 1 eq_refl) eq_refl).
Defined.

(** ** Waiting for a running child *)


Ltac conjs := repeat match goal with |- _ /\ _ => split end.








(** ** The escalation *)










(** ** The registry *)

Lemma no_new_handle_refl m : no_new_handle m m.
Proof. split; auto. Qed.

Lemma no_new_handle_trans m1 m2 m3 :
  no_new_handle m1 m2 -> no_new_handle m2 m3 -> no_new_handle m1 m3.
Proof. intros [H1 H2] [H3 H4]. split; [congruence | auto]. Qed.

Lemma on_proc_no_new_handle {A} m0 procid (method : M Process A) :
  keeps (no_new_handle m0) (ProcessManager.on_proc procid method).
Proof.
  intros m w H. apply (no_new_handle_trans _ _ _ H). clear H.
  unfold self_after, ProcessManager.on_proc. simpl.
  destruct (__procs m !! procid) as [proc|] eqn:E; [|apply no_new_handle_refl].
  destruct (method (proc, w)) as [r [proc' w']]. simpl.
  split; [reflexivity|]. simpl. intros k Hk.
  rewrite lookup_insert_ne; [exact Hk | congruence].
Qed.

Lemma del_proc_no_new_handle m0 procid :
  keeps (no_new_handle m0) (ProcessManager.del_proc procid).
Proof.
  intros m w H. apply (no_new_handle_trans _ _ _ H). clear H.
  unfold self_after, ProcessManager.del_proc. simpl.
  destruct (__procs m !! procid) as [proc|] eqn:E; [|apply no_new_handle_refl].
  destruct (Process.__del__ (proc, w)) as [r [proc' w']]. simpl.
  split; [reflexivity|]. simpl. intros k Hk.
  rewrite lookup_delete_None. now right.
Qed.

Lemma reap_no_new_handle m0 procid :
  keeps (no_new_handle m0) (ProcessManager.reap procid).
Proof.
  unfold ProcessManager.reap, ProcessManager.wait, ProcessManager.kill.
  apply keeps_bind; [apply on_proc_no_new_handle | intros running].
  apply keeps_bind.
  { destruct running; [apply world_only_keeps, world_only_ret
                      | apply on_proc_no_new_handle]. }
  intros _. apply keeps_bind; [apply on_proc_no_new_handle | intros _].
  apply del_proc_no_new_handle.
Qed.

Lemma reap_each_no_new_handle m0 procids :
  keeps (no_new_handle m0) (ProcessManager.reap_each procids).
Proof.
  induction procids as [|procid rest IH]; simpl.
  - apply world_only_keeps, world_only_ret.
  - apply keeps_bind; [apply reap_no_new_handle | intros _; exact IH].
Qed.

Lemma serve_no_new_handle m0 q :
  (forall prog, q <> q_start prog) -> keeps (no_new_handle m0) (serve q).
Proof.
  intros Hq. destruct q; unfold serve, reply;
    try (apply keeps_bind; [| intros; apply world_only_keeps, world_only_ret]);
    try apply on_proc_no_new_handle.
  - now destruct (Hq prog).
  - apply reap_no_new_handle.
  - unfold ProcessManager.reapall.
    apply keeps_bind; [now intros m w H | intros self].
    apply reap_each_no_new_handle.
Qed.

(** [start] either fails in the spawn and changes nothing, or issues
    the handle after the last one. *)
Lemma start_issues (prog : Program) (m : ProcessManager) (w : World) :
  (exists e, ProcessManager.start prog (m, w) = (Raise (OSError e), (m, w))) \/
  (exists proc w',
      ProcessManager.start prog (m, w) =
        (Return (__last_id m + 1),
         ({| __last_id := __last_id m + 1;
             __procs := <[__last_id m + 1 := proc]> (__procs m) |}, w'))).
Proof.
  unfold ProcessManager.start, Process.__init__, Popen. step_m.
  destruct (spawn_error prog) as [e|]; simpl.
  - left. now exists e.
  - right. now eexists _, _.
Qed.

Lemma serve_start (prog : Program) (m : ProcessManager) (w : World) :
  (exists e, serve (q_start prog) (m, w) = (Raise (OSError e), (m, w))) \/
  (exists proc w',
      serve (q_start prog) (m, w) =
        (Return (r_id (__last_id m + 1)),
         ({| __last_id := __last_id m + 1;
             __procs := <[__last_id m + 1 := proc]> (__procs m) |}, w'))).
Proof.
  unfold serve, reply, bind.
  destruct (start_issues prog m w) as [(e & ->)|(proc & w' & ->)].
  - left. now exists e.
  - right. now exists proc, w'.
Qed.

(** Requests other than [start] return no handle. *)
Lemma serve_no_id q st procid :
  (forall prog, q <> q_start prog) -> fst (serve q st) <> Return (r_id procid).
Proof.
  intros Hq. destruct q; unfold serve, reply, bind;
    try (now destruct (Hq prog));
    match goal with |- context [match ?m st with _ => _ end] =>
      destruct (m st) as [[a|e|h] st'] end; simpl; discriminate.
Qed.

Lemma start_or_not q :
  (exists prog, q = q_start prog) \/ (forall prog, q <> q_start prog).
Proof. destruct q; try (right; discriminate). left. now exists prog. Qed.

Lemma started_not_id r rs :
  (forall procid, r <> Return (r_id procid)) -> started (r :: rs) = started rs.
Proof.
  intros H. destruct r as [[]|e|h]; try reflexivity. now destruct (H procid).
Qed.

(** The handles a run of requests returns are the integers that follow
    the last handle issued before it, in order. *)
Lemma started_run qs : forall (m : ProcessManager) (w : World),
  let rs := fst (run serve qs (m, w)) in
  started rs = seqZ (__last_id m + 1) (Z.of_nat (length (started rs))).
Proof.
  induction qs as [|q qs IH]; intros m w; [reflexivity|].
  cbn zeta. simpl run.
  destruct (start_or_not q) as [(prog & ->)|Hq].
  - destruct (serve_start prog m w) as [(e & ->)|(proc & w' & ->)].
    + specialize (IH m w). cbn zeta in IH.
      destruct (run serve qs (m, w)) as [rs st]. exact IH.
    + match goal with |- context [run serve qs (?m', w')] =>
        specialize (IH m' w'); destruct (run serve qs (m', w')) as [rs st] end.
      cbn zeta in IH. simpl in *.
      rewrite seqZ_cons by lia. f_equal.
      rewrite IH at 1. f_equal; lia.
  - pose proof (serve_no_new_handle m q Hq m w (no_new_handle_refl m)) as [Hid _].
    pose proof (serve_no_id q (m, w)) as Hno. unfold self_after in Hid.
    destruct (serve q (m, w)) as [r [m' w']]. simpl in Hid, Hno.
    destruct r as [a|e|h]; try reflexivity.
    + specialize (IH m' w'). cbn zeta in IH.
      destruct (run serve qs (m', w')) as [rs st]. simpl fst in *.
      rewrite started_not_id by (intros procid; apply Hno; exact Hq).
      rewrite IH at 1. now rewrite Hid.
    + specialize (IH m' w'). cbn zeta in IH.
      destruct (run serve qs (m', w')) as [rs st]. simpl fst in *.
      change (started (Raise e :: rs)) with (started rs).
      rewrite IH at 1. now rewrite Hid.
Qed.

Lemma serve_unknown q procid (m : ProcessManager) (w : World) :
  handle_of q = Some procid -> __procs m !! procid = None ->
  serve q (m, w) = (Raise (KeyError procid), (m, w)).
Proof.
  intros Hq Hm.
  destruct q; simpl in Hq; try discriminate; injection Hq as ->;
    unfold serve, reply, ProcessManager.reap, ProcessManager.kill,
      ProcessManager.terminate, ProcessManager.write, ProcessManager.closeinput,
      ProcessManager.read, ProcessManager.readerr, ProcessManager.readboth,
      ProcessManager.wait, bind, ProcessManager.on_proc; simpl; now rewrite Hm.
Qed.

Lemma issued_no_new_handle m m' :
  handles_issued m -> no_new_handle m m' -> handles_issued m'.
Proof.
  intros Hm [Hid Hk] k Hsome. rewrite Hid. apply Hm.
  destruct (__procs m !! k) eqn:E; [eauto|].
  rewrite (Hk k E) in Hsome. now destruct Hsome.
Qed.

Lemma retired_no_new_handle procid m m' :
  retired procid m -> no_new_handle m m' -> retired procid m'.
Proof. intros [Hm Hle] [Hid Hk]. split; [auto | now rewrite Hid]. Qed.

Lemma serve_keeps_issued q : keeps handles_issued (serve q).
Proof.
  intros m w Hm. destruct (start_or_not q) as [(prog & ->)|Hq].
  - unfold self_after.
    destruct (serve_start prog m w) as [(e & ->)|(proc & w' & ->)]; [exact Hm|].
    simpl. intros k Hk. simpl in *.
    destruct (decide (k = __last_id m + 1)) as [->|Hne]; [lia|].
    rewrite lookup_insert_ne in Hk by congruence. specialize (Hm k Hk). lia.
  - apply (issued_no_new_handle m); [exact Hm|].
    apply (serve_no_new_handle m q Hq m w (no_new_handle_refl m)).
Qed.

Lemma serve_keeps_retired procid q : keeps (retired procid) (serve q).
Proof.
  intros m w Hm. destruct (start_or_not q) as [(prog & ->)|Hq].
  - unfold self_after.
    destruct (serve_start prog m w) as [(e & ->)|(proc & w' & ->)]; [exact Hm|].
    destruct Hm as [Hm Hle]. split; simpl; [|lia].
    rewrite lookup_insert_ne by lia. exact Hm.
  - apply (retired_no_new_handle procid m); [exact Hm|].
    apply (serve_no_new_handle m q Hq m w (no_new_handle_refl m)).
Qed.

(** A [reap] that returns leaves its handle retired. *)
Lemma reap_retires procid (m : ProcessManager) (w : World) r :
  handles_issued m ->
  fst (serve (q_reap procid) (m, w)) = Return r ->
  retired procid (self_after (serve (q_reap procid)) (m, w)).
Proof.
  intros Hm Hret.
  destruct (__procs m !! procid) as [proc|] eqn:E.
  - assert (Hle : procid <= __last_id m) by (apply Hm; eauto).
    pose proof (serve_no_new_handle m (q_reap procid) ltac:(discriminate) m w
                  (no_new_handle_refl m)) as [Hid _].
    split; [|now rewrite Hid].
    clear Hid Hle Hm E proc. revert Hret.
    unfold self_after, serve, reply, ProcessManager.reap, bind.
    destruct (ProcessManager.wait procid WNOHANG (m, w)) as [[running|e|h] st1];
      try discriminate.
    destruct ((match running with
               | Some _ => ret tt
               | None => ProcessManager.kill procid SIGKILL
               end) st1) as [[u|e|h] st2]; try discriminate.
    destruct (ProcessManager.wait procid 0 st2) as [[status|e|h] [m3 w3]];
      try discriminate.
    unfold ProcessManager.del_proc. simpl.
    destruct (__procs m3 !! procid) as [proc3|]; [|discriminate].
    destruct (Process.__del__ (proc3, w3)) as [[u'|e|h] [proc4 w4]]; try discriminate.
    intros _. simpl. apply lookup_delete_eq.
  - rewrite (serve_unknown (q_reap procid) procid m w eq_refl E) in Hret. discriminate.
Qed.

(** C8.  From a new registry, whatever requests are served in between
    (reaps included), the handles returned by [start] are 1, 2, 3, ...
    in this order: strictly increasing and never issued twice.  A
    request on a handle that is not in use raises [KeyError] and
    changes nothing.  Once [reap] has returned for a handle, the handle
    is not issued again and every later request on it raises
    [KeyError]. *)
Theorem registry_handles :
  forall (w : World),
    (forall qs,
        let rs := fst (run serve qs (ProcessManager.__init__, w)) in
        started rs = seqZ 1 (Z.of_nat (length (started rs))) /\
        NoDup (started rs) /\
        (forall (i j : nat) a b,
            started rs !! i = Some a -> started rs !! j = Some b ->
            (i < j)%nat -> a < b)) /\
    (forall q procid (m : ProcessManager) (w' : World),
        handle_of q = Some procid -> __procs m !! procid = None ->
        serve q (m, w') = (Raise (KeyError procid), (m, w'))) /\
    (forall qs1 procid r qs2 q,
        let st1 := snd (run serve qs1 (ProcessManager.__init__, w)) in
        let st2 := snd (run serve qs2 (snd (serve (q_reap procid) st1))) in
        fst (serve (q_reap procid) st1) = Return r ->
        handle_of q = Some procid ->
        serve q st2 = (Raise (KeyError procid), st2) /\
        procid ∉ started (fst (run serve qs2 (snd (serve (q_reap procid) st1))))).
Proof.
  intros w. split; [|split].
  - intros qs rs.
    pose proof (started_run qs ProcessManager.__init__ w) as H.
    cbn zeta in H. fold rs in H. simpl in H.
    split; [exact H|]. rewrite H. split; [apply NoDup_seqZ|].
    intros i j a b Hi Hj Hlt.
    apply lookup_seqZ in Hi as [-> _]. apply lookup_seqZ in Hj as [-> _]. lia.
  - intros q procid m w'. apply serve_unknown.
  - intros qs1 procid r qs2 q st1 st2 Hret Hq.
    assert (Hissued : handles_issued (fst st1)).
    { subst st1. apply (keeps_run handles_issued serve qs1 serve_keeps_issued).
      intros k [x Hx]. simpl in Hx. now rewrite lookup_empty in Hx. }
    destruct st1 as [m1 w1]. simpl in Hissued.
    pose proof (reap_retires procid m1 w1 r Hissued Hret) as Hretired.
    unfold self_after in Hretired.
    destruct (serve (q_reap procid) (m1, w1)) as [r1 [m2 w2]]. simpl in *.
    split.
    + assert (Hst2 : retired procid (fst st2)).
      { subst st2. now apply (keeps_run (retired procid) serve qs2
                                 (serve_keeps_retired procid)). }
      destruct st2 as [m3 w3]. apply serve_unknown; [exact Hq | apply Hst2].
    + pose proof (started_run qs2 m2 w2) as H. cbn zeta in H. rewrite H.
      rewrite elem_of_seqZ. destruct Hretired as [_ Hle]. lia.
Qed.

Lemma registry_handles_witness :
  started (fst (run serve [q_start quick; q_start stubborn; q_reap 1; q_start polite]
                  (ProcessManager.__init__, boot))) = [1; 2; 3] /\
  fst (serve (q_read 1)
         (snd (run serve [q_start polite]
                 (snd (serve (q_reap 1)
                         (snd (run serve [q_start quick; q_start stubborn]
                                 (ProcessManager.__init__, boot)))))))) =
    Raise (KeyError 1).
Proof.
  destruct (registry_handles boot) as (Hseq & _ & Hreap).
  split.
  - destruct (Hseq [q_start quick; q_start stubborn; q_reap 1; q_start polite])
      as (H & _).
    rewrite H. reflexivity.
  - destruct (Hreap [q_start quick; q_start stubborn] 1 r_none [q_start polite]
                (q_read 1) eq_refl eq_refl) as (H & _).
    now rewrite H.
Defined.

(** ** Lines of text *)

Lemma append_cons c (a b : string) :
  String.append (String c a) b = String c (String.append a b).
Proof. reflexivity. Qed.

Lemma append_empty_l (a : string) : String.append EmptyString a = a.
Proof. reflexivity. Qed.

Lemma append_empty_r (a : string) : String.append a EmptyString = a.
Proof.
  induction a as [|c a IH]; [reflexivity|]. now rewrite append_cons, IH.
Qed.

Lemma strip_newlines_app (a b : string) :
  strip_newlines (String.append a b) =
    String.append (strip_newlines a) (strip_newlines b).
Proof.
  induction a as [|c a IH]; [reflexivity|].
  rewrite append_cons. simpl. destruct (Ascii.eqb c newline); [exact IH|].
  now rewrite append_cons, IH.
Qed.

Lemma strip_newlines_id (s : string) :
  has_newline s = false -> strip_newlines s = s.
Proof.
  induction s as [|c s IH]; [reflexivity|]. simpl.
  destruct (Ascii.eqb c newline); [discriminate|]. simpl. intros H. now rewrite IH.
Qed.

Lemma has_newline_app (a b : string) :
  has_newline (String.append a b) = has_newline a || has_newline b.
Proof.
  induction a as [|c a IH]; [reflexivity|].
  rewrite append_cons. simpl. now rewrite IH, orb_assoc.
Qed.

Lemma split_lines_cons (s : string) :
  exists line lines, split_lines s = line :: lines.
Proof.
  induction s as [|c s (line & lines & IH)]; simpl; [eauto|].
  destruct (Ascii.eqb c newline); [eauto|]. rewrite IH. eauto.
Qed.

(** Joining the pieces of [split] gives the text without its newlines. *)
Lemma str_join_split_lines (s : string) :
  str_join (split_lines s) = strip_newlines s.
Proof.
  induction s as [|c s IH]; [reflexivity|]. simpl.
  destruct (Ascii.eqb c newline); [exact IH|].
  destruct (split_lines_cons s) as (line & lines & E). rewrite E in *.
  simpl in *. now rewrite append_cons, IH.
Qed.

Lemma split_lines_no_newline (s : string) :
  Forall (fun line => has_newline line = false) (split_lines s).
Proof.
  induction s as [|c s IH]; simpl; [now repeat constructor|].
  destruct (Ascii.eqb c newline) eqn:E; [now constructor|].
  destruct (split_lines_cons s) as (line & lines & El). rewrite El in *.
  inversion IH; subst. constructor; [|assumption]. simpl. now rewrite E.
Qed.

Lemma strip_drop_last (s : string) :
  ends_with_newline s = true -> strip_newlines (drop_last s) = strip_newlines s.
Proof.
  induction s as [|c s IH]; [discriminate|].
  destruct s as [|c' s].
  - simpl. now intros ->.
  - intros H. change (ends_with_newline (String c' s) = true) in H.
    change (drop_last (String c (String c' s))) with (String c (drop_last (String c' s))).
    change (strip_newlines (String c (drop_last (String c' s)))) with
      (if Ascii.eqb c newline then strip_newlines (drop_last (String c' s))
       else String c (strip_newlines (drop_last (String c' s)))).
    rewrite (IH H). reflexivity.
Qed.

(** ** The console logger *)

Lemma tag_out_line line :
  String.append OutputLogger.tag_out line = String space (String space line).
Proof. reflexivity. Qed.

Lemma tag_err_line line :
  String.append OutputLogger.tag_err line = String star (String space line).
Proof. reflexivity. Qed.

Lemma lines_out_app l1 l2 : lines_out (l1 ++ l2) = lines_out l1 ++ lines_out l2.
Proof.
  induction l1 as [|e l1 IH]; [reflexivity|]. simpl.
  destruct e as [| |line|]; try exact IH.
  destruct line as [|c1 [|c2 line]]; try exact IH.
  destruct (Ascii.eqb c1 space && Ascii.eqb c2 space); [|exact IH].
  simpl. now rewrite IH.
Qed.

Lemma lines_err_app l1 l2 : lines_err (l1 ++ l2) = lines_err l1 ++ lines_err l2.
Proof.
  induction l1 as [|e l1 IH]; [reflexivity|]. simpl.
  destruct e as [| |line|]; try exact IH.
  destruct line as [|c1 [|c2 line]]; try exact IH.
  destruct (Ascii.eqb c1 star && Ascii.eqb c2 space); [|exact IH].
  simpl. now rewrite IH.
Qed.

Lemma echoes_app l1 l2 : echoes (l1 ++ l2) = echoes l1 ++ echoes l2.
Proof.
  induction l1 as [|e l1 IH]; [reflexivity|]. simpl.
  destruct e; try exact IH. simpl. now rewrite IH.
Qed.

Lemma logged_out (ls : list string) :
  let effects := map (fun line => OutputLogger.e_log (String.append OutputLogger.tag_out line)) ls in
  lines_out effects = ls /\ lines_err effects = [] /\ echoes effects = [] /\
  (Forall (fun line => has_newline line = false) ls -> forallb one_line effects = true).
Proof.
  induction ls as [|l ls (IH1 & IH2 & IH3 & IH4)]; [easy|].
  cbn zeta. simpl map. rewrite tag_out_line. simpl. rewrite IH1, IH2, IH3.
  repeat split. intros H. inversion H; subst.
  rewrite (IH4 ltac:(assumption)). now destruct (has_newline l).
Qed.

Lemma logged_err (ls : list string) :
  let effects := map (fun line => OutputLogger.e_log (String.append OutputLogger.tag_err line)) ls in
  lines_err effects = ls /\ lines_out effects = [] /\ echoes effects = [] /\
  (Forall (fun line => has_newline line = false) ls -> forallb one_line effects = true).
Proof.
  induction ls as [|l ls (IH1 & IH2 & IH3 & IH4)]; [easy|].
  cbn zeta. simpl map. rewrite tag_err_line. simpl. rewrite IH1, IH2, IH3.
  repeat split. intros H. inversion H; subst.
  rewrite (IH4 ltac:(assumption)). now destruct (has_newline l).
Qed.

Lemma held_empty st (self : OutputLogger.t) :
  OutputLogger.buffer self = EmptyString -> held st self = EmptyString.
Proof. intros H. unfold held. rewrite H. now destruct (OutputLogger.BState_eqb _ _). Qed.

(** What one [flush] does. *)
Lemma flush_spec (self : OutputLogger.t) :
  let effects := fst (OutputLogger.flush self) in
  let self' := snd (OutputLogger.flush self) in
  str_join (lines_out effects) = strip_newlines (held OutputLogger.STDOUT self) /\
  str_join (lines_err effects) = strip_newlines (held OutputLogger.STDERR self) /\
  echoes effects = [] /\
  forallb one_line effects = true /\
  OutputLogger.stdout self' = OutputLogger.stdout self /\
  OutputLogger.stderr self' = OutputLogger.stderr self /\
  OutputLogger.started self' = OutputLogger.started self /\
  (OutputLogger.bufferState self <> OutputLogger.EMPTY ->
   OutputLogger.buffer self' = EmptyString /\
   OutputLogger.bufferState self' = OutputLogger.EMPTY) /\
  (OutputLogger.bufferState self = OutputLogger.EMPTY -> self' = self).
Proof.
  unfold OutputLogger.flush, held.
  set (b := if ends_with_newline (OutputLogger.buffer self)
            then drop_last (OutputLogger.buffer self) else OutputLogger.buffer self).
  assert (Hb : strip_newlines b = strip_newlines (OutputLogger.buffer self)).
  { subst b. destruct (ends_with_newline _) eqn:E; [now apply strip_drop_last | reflexivity]. }
  destruct (OutputLogger.bufferState self) eqn:Est; cbn zeta; simpl fst; simpl snd.
  - repeat split; try reflexivity; congruence.
  - destruct (logged_out (split_lines b)) as (H1 & H2 & H3 & H4).
    cbn zeta in *. simpl. rewrite lines_out_app, lines_err_app, echoes_app, forallb_app.
    rewrite H1, H2, H3, (H4 (split_lines_no_newline b)). simpl.
    rewrite ?app_nil_r, ?str_join_split_lines, ?Hb. repeat split; try reflexivity; discriminate.
  - destruct (logged_err (split_lines b)) as (H1 & H2 & H3 & H4).
    cbn zeta in *. simpl. rewrite lines_out_app, lines_err_app, echoes_app, forallb_app.
    rewrite H1, H2, H3, (H4 (split_lines_no_newline b)). simpl.
    rewrite ?app_nil_r, ?str_join_split_lines, ?Hb. repeat split; try reflexivity; discriminate.
Qed.

Lemma flush_if_newline_spec (self : OutputLogger.t) :
  OutputLogger.bufferState self <> OutputLogger.EMPTY ->
  let effects := fst (OutputLogger.flush_if_newline self) in
  let self' := snd (OutputLogger.flush_if_newline self) in
  tidy self' /\
  String.append (str_join (lines_out effects)) (held OutputLogger.STDOUT self') =
    strip_newlines (held OutputLogger.STDOUT self) /\
  String.append (str_join (lines_err effects)) (held OutputLogger.STDERR self') =
    strip_newlines (held OutputLogger.STDERR self) /\
  echoes effects = [] /\
  forallb one_line effects = true /\
  OutputLogger.stdout self' = OutputLogger.stdout self /\
  OutputLogger.stderr self' = OutputLogger.stderr self /\
  OutputLogger.started self' = OutputLogger.started self.
Proof.
  intros Hst. unfold OutputLogger.flush_if_newline.
  destruct (has_newline (OutputLogger.buffer self)) eqn:Enl.
  - destruct (flush_spec self) as (H1 & H2 & H3 & H4 & H5 & H6 & H7 & H8 & _).
    destruct (H8 Hst) as [Hb Hs]. cbn zeta in *.
    rewrite H1, H2, !(held_empty _ _ Hb), !append_empty_r.
    repeat split; try assumption; now rewrite Hb.
  - cbn zeta. simpl.
    assert (Hheld : forall st, strip_newlines (held st self) = held st self).
    { intros st. apply strip_newlines_id. unfold held.
      now destruct (OutputLogger.BState_eqb _ _). }
    rewrite !Hheld. repeat split; try reflexivity; try assumption. intros; contradiction.
Qed.

Lemma write_spec message (dest : OutputLogger.BState) (self : OutputLogger.t) :
  dest <> OutputLogger.EMPTY -> tidy self ->
  let effects := fst (fst (OutputLogger.write message dest self)) in
  let self' := snd (fst (OutputLogger.write message dest self)) in
  snd (OutputLogger.write message dest self) = None /\
  tidy self' /\
  String.append (str_join (lines_out effects)) (held OutputLogger.STDOUT self') =
    String.append (held OutputLogger.STDOUT self)
      (if OutputLogger.BState_eqb dest OutputLogger.STDOUT
       then strip_newlines message else EmptyString) /\
  String.append (str_join (lines_err effects)) (held OutputLogger.STDERR self') =
    String.append (held OutputLogger.STDERR self)
      (if OutputLogger.BState_eqb dest OutputLogger.STDERR
       then strip_newlines message else EmptyString) /\
  echoes effects =
    [OutputLogger.e_write
       (if OutputLogger.BState_eqb dest OutputLogger.STDOUT
        then OutputLogger.stdout self else OutputLogger.stderr self) message] /\
  forallb one_line effects = true /\
  OutputLogger.stdout self' = OutputLogger.stdout self /\
  OutputLogger.stderr self' = OutputLogger.stderr self /\
  OutputLogger.started self' = OutputLogger.started self.
Proof.
  intros Hdest [Hempty Hnl].
  assert (Hstrip : strip_newlines (OutputLogger.buffer self) = OutputLogger.buffer self)
    by (now apply strip_newlines_id).
  destruct dest; [contradiction| |];
    destruct (OutputLogger.bufferState self) eqn:Es;
    unfold OutputLogger.write; rewrite Es; simpl orb; cbv iota;
    try rewrite (Hempty eq_refl) in *.
  all: try (destruct (flush_spec self) as (F1 & F2 & F3 & F4 & F5 & F6 & F7 & F8 & _);
            destruct (F8 ltac:(rewrite Es; discriminate)) as [Fb Fs];
            unfold held in F1, F2; rewrite Es in F1, F2; simpl in F1, F2;
            rewrite ?Hstrip in F1, F2;
            destruct (OutputLogger.flush self) as [flushed self0];
            cbn zeta in *; simpl fst in *; simpl snd in *;
            rewrite Fb; simpl negb; cbv iota).
  all: match goal with |- context [OutputLogger.flush_if_newline ?s1] =>
         destruct (flush_if_newline_spec s1 ltac:(simpl; discriminate))
           as (T & H1 & H2 & H3 & H4 & H5 & H6 & H7);
         destruct (OutputLogger.flush_if_newline s1) as [effects self2]
       end;
       cbn zeta in *; simpl fst in *; simpl snd in *;
       unfold held in H1, H2; simpl in H1, H2, H5, H6, H7;
       rewrite ?append_empty_l in *;
       rewrite ?strip_newlines_app in H1, H2; rewrite ?Hstrip in H1, H2;
       (split; [reflexivity|]); (split; [exact T|]);
       simpl; rewrite ?lines_out_app, ?lines_err_app, ?echoes_app, ?forallb_app;
       rewrite ?F3, ?F4, ?H3, ?H4; simpl;
       rewrite ?str_join_app, ?append_assoc, ?F1, ?F2;
       unfold held in *; rewrite ?Es; simpl;
       rewrite ?H1, ?H2, ?append_empty_l, ?append_empty_r;
       repeat split; try reflexivity; try congruence;
       now rewrite strip_newlines_app, Hstrip.
Qed.

Lemma held_tidy st (self : OutputLogger.t) :
  tidy self -> strip_newlines (held st self) = held st self.
Proof.
  intros [_ H]. apply strip_newlines_id. unfold held.
  now destruct (OutputLogger.BState_eqb _ _).
Qed.

Lemma flush_tidy (self : OutputLogger.t) :
  tidy self ->
  tidy (snd (OutputLogger.flush self)) /\
  forall st, held st (snd (OutputLogger.flush self)) = EmptyString.
Proof.
  intros T. destruct (flush_spec self) as (_ & _ & _ & _ & _ & _ & _ & F8 & F9).
  cbn zeta in *.
  destruct (OutputLogger.bufferState self) eqn:Es.
  - rewrite (F9 eq_refl). split; [exact T|]. intros st.
    apply held_empty. now apply T.
  - destruct (F8 ltac:(discriminate)) as [Fb Fs]. split.
    + split; [auto | now rewrite Fb].
    + intros st. now apply held_empty.
  - destruct (F8 ltac:(discriminate)) as [Fb Fs]. split.
    + split; [auto | now rewrite Fb].
    + intros st. now apply held_empty.
Qed.

(** What one use of the captured streams does. *)
Lemma use_spec (u : Use) (self : OutputLogger.t) :
  tidy self ->
  let effects := fst (fst (use u self)) in
  let self' := snd (fst (use u self)) in
  snd (use u self) = None /\
  tidy self' /\
  String.append (str_join (lines_out effects)) (held OutputLogger.STDOUT self') =
    String.append (held OutputLogger.STDOUT self) (strip_newlines (text_out [u])) /\
  String.append (str_join (lines_err effects)) (held OutputLogger.STDERR self') =
    String.append (held OutputLogger.STDERR self) (strip_newlines (text_err [u])) /\
  echoes effects = echo_of self u /\
  forallb one_line effects = true /\
  OutputLogger.stdout self' = OutputLogger.stdout self /\
  OutputLogger.stderr self' = OutputLogger.stderr self /\
  OutputLogger.started self' = OutputLogger.started self.
Proof.
  intros T. destruct u as [message|message| |]; unfold use.
  - unfold OutputLogger.handleWriteOut.
    destruct (write_spec message OutputLogger.STDOUT self ltac:(discriminate) T)
      as (H0 & H1 & H2 & H3 & H4 & H5 & H6 & H7 & H8).
    cbn zeta in *. simpl in H2, H3, H4. simpl text_out. simpl text_err.
    change (strip_newlines EmptyString) with EmptyString.
    rewrite ?append_empty_r in *. simpl echo_of. conjs; assumption.
  - unfold OutputLogger.handleWriteErr.
    destruct (write_spec message OutputLogger.STDERR self ltac:(discriminate) T)
      as (H0 & H1 & H2 & H3 & H4 & H5 & H6 & H7 & H8).
    cbn zeta in *. simpl in H2, H3, H4. simpl text_out. simpl text_err.
    change (strip_newlines EmptyString) with EmptyString.
    rewrite ?append_empty_r in *. simpl echo_of. conjs; assumption.
  - unfold OutputLogger.handleFlushOut.
    destruct (flush_spec self) as (F1 & F2 & F3 & F4 & F5 & F6 & F7 & _).
    destruct (flush_tidy self T) as [T' Hh].
    destruct (OutputLogger.flush self) as [effects self']. cbn zeta in *. simpl in *.
    rewrite F1, F2, !Hh, !(held_tidy _ _ T). conjs; try assumption; reflexivity.
  - unfold OutputLogger.handleFlushErr.
    destruct (flush_spec self) as (F1 & F2 & F3 & F4 & F5 & F6 & F7 & _).
    destruct (flush_tidy self T) as [T' Hh].
    destruct (OutputLogger.flush self) as [effects self']. cbn zeta in *. simpl in *.
    rewrite F1, F2, !Hh, !(held_tidy _ _ T). conjs; try assumption; reflexivity.
Qed.

Lemma uses_spec (us : list Use) : forall (self : OutputLogger.t),
  tidy self ->
  let effects := fst (fst (uses us self)) in
  let self' := snd (fst (uses us self)) in
  snd (uses us self) = None /\
  tidy self' /\
  String.append (str_join (lines_out effects)) (held OutputLogger.STDOUT self') =
    String.append (held OutputLogger.STDOUT self) (strip_newlines (text_out us)) /\
  String.append (str_join (lines_err effects)) (held OutputLogger.STDERR self') =
    String.append (held OutputLogger.STDERR self) (strip_newlines (text_err us)) /\
  echoes effects = flat_map (echo_of self) us /\
  forallb one_line effects = true /\
  OutputLogger.stdout self' = OutputLogger.stdout self /\
  OutputLogger.stderr self' = OutputLogger.stderr self /\
  OutputLogger.started self' = OutputLogger.started self.
Proof.
  induction us as [|u us IH]; intros self T.
  - cbn zeta. simpl. rewrite !append_empty_r. repeat split; try reflexivity; apply T.
  - destruct (use_spec u self T) as (H0 & T1 & H2 & H3 & H4 & H5 & H6 & H7 & H8).
    assert (Htext : strip_newlines (text_out (u :: us)) =
                    String.append (strip_newlines (text_out [u])) (strip_newlines (text_out us)) /\
                    strip_newlines (text_err (u :: us)) =
                    String.append (strip_newlines (text_err [u])) (strip_newlines (text_err us))).
    { destruct u; simpl; rewrite ?append_empty_r, ?strip_newlines_app; split; reflexivity. }
    destruct Htext as [Ho He].
    cbn zeta in *. rewrite Ho, He. clear Ho He.
    generalize dependent (strip_newlines (text_out [u])). intros to.
    generalize dependent (strip_newlines (text_err [u])). intros te.
    intros H3 H2.
    change (flat_map (echo_of self) (u :: us)) with
      (echo_of self u ++ flat_map (echo_of self) us).
    simpl uses.
    destruct (use u self) as [[effects1 self1] err1]. simpl in H0, T1, H2, H3, H4, H5, H6, H7, H8.
    subst err1.
    destruct (IH self1 T1) as (I0 & T2 & I2 & I3 & I4 & I5 & I6 & I7 & I8).
    cbn zeta in *.
    destruct (uses us self1) as [[effects2 self2] err2].
    simpl in I0, T2, I2, I3, I4, I5, I6, I7, I8. simpl fst. simpl snd.
    rewrite lines_out_app, lines_err_app, echoes_app, forallb_app, !str_join_app.
    rewrite !append_assoc, I2, I3, <- !append_assoc, H2, H3, H4, H5, I4, I5.
    rewrite !append_assoc.
    assert (Hecho : flat_map (echo_of self1) us = flat_map (echo_of self) us).
    { clear -H6 H7. induction us as [|u' us IH]; [reflexivity|]. simpl. rewrite IH.
      f_equal. destruct u'; simpl; congruence. }
    rewrite Hecho. conjs; try reflexivity; try assumption; congruence.
Qed.

(** X1.  While the two streams are captured, whatever the program
    writes and flushes, the assertion in [write] holds and no call
    raises; after every call the buffer holds no newline, and it is
    empty whenever it is marked [EMPTY]. *)
Theorem capture_never_fails :
  forall (sys : OutputLogger.Sys) (us : list Use),
    let self' := snd (fst (uses us (OutputLogger.__init__ sys))) in
    snd (uses us (OutputLogger.__init__ sys)) = None /\
    has_newline (OutputLogger.buffer self') = false /\
    (OutputLogger.bufferState self' = OutputLogger.EMPTY ->
     OutputLogger.buffer self' = EmptyString).
Proof.
  intros sys us.
  destruct (uses_spec us (OutputLogger.__init__ sys)) as (H0 & [T1 T2] & _).
  { split; reflexivity. }
  cbn zeta in *. auto.
Qed.

(** X2.  Capture loses no text and mixes no streams.  The lines logged
    with the tag of standard output, joined, followed by what is still
    held back for it, are exactly the text written to standard output
    without its newlines; likewise for standard error.  Every log
    record is a single line, and every message reaches the stream it
    was written to, in the order of writing. *)
Theorem capture_logs_all_text :
  forall (sys : OutputLogger.Sys) (us : list Use),
    let effects := fst (fst (uses us (OutputLogger.__init__ sys))) in
    let self' := snd (fst (uses us (OutputLogger.__init__ sys))) in
    String.append (str_join (lines_out effects)) (held OutputLogger.STDOUT self') =
      strip_newlines (text_out us) /\
    String.append (str_join (lines_err effects)) (held OutputLogger.STDERR self') =
      strip_newlines (text_err us) /\
    forallb one_line effects = true /\
    echoes effects = flat_map (echo_of (OutputLogger.__init__ sys)) us.
Proof.
  intros sys us.
  destruct (uses_spec us (OutputLogger.__init__ sys))
    as (_ & _ & H2 & H3 & H4 & H5 & _).
  { split; reflexivity. }
  cbn zeta in *. auto.
Qed.

(** X3.  A capture that is started and finished leaves [sys.stdout]
    and [sys.stderr] as they were when the logger was created, and
    holds nothing back: all text written in between is in the log.
    Starting a started capture and finishing one that is not started
    raise. *)
Theorem capture_round_trip :
  forall (sys : OutputLogger.Sys) (us : list Use),
    let captured :=
      {| OutputLogger.sys_stdout := OutputLogger.stdOutHandler;
         OutputLogger.sys_stderr := OutputLogger.stdErrHandler |} in
    exists self1 effects self2 flushed self3,
      OutputLogger.startCapture (OutputLogger.__init__ sys) sys = inl (self1, captured) /\
      uses us self1 = (effects, self2, None) /\
      OutputLogger.finishCapture self2 captured = (flushed, inl (self3, sys)) /\
      str_join (lines_out (effects ++ flushed)) = strip_newlines (text_out us) /\
      str_join (lines_err (effects ++ flushed)) = strip_newlines (text_err us) /\
      OutputLogger.buffer self3 = EmptyString /\
      OutputLogger.started self3 = false /\
      OutputLogger.startCapture self1 captured = inr OutputLogger.AlreadyStarted /\
      OutputLogger.finishCapture self3 sys = ([], inr OutputLogger.NotStarted).
Proof.
  intros sys us captured.
  set (self1 := OutputLogger.set_started true (OutputLogger.__init__ sys)).
  assert (T : tidy self1) by (split; reflexivity).
  destruct (uses_spec us self1 T) as (H0 & T2 & H2 & H3 & _ & _ & H6 & H7 & H8).
  cbn zeta in *.
  destruct (uses us self1) as [[effects self2] e] eqn:Eu. simpl in *. subst e.
  assert (T3 : tidy (OutputLogger.set_started false self2)) by exact T2.
  destruct (flush_spec (OutputLogger.set_started false self2))
    as (F1 & F2 & _ & _ & F5 & F6 & F7 & F8 & F9).
  destruct (flush_tidy _ T3) as [T4 Hh].
  cbn zeta in *.
  exists self1, effects, self2.
  exists (fst (OutputLogger.flush (OutputLogger.set_started false self2))).
  exists (snd (OutputLogger.flush (OutputLogger.set_started false self2))).
  unfold OutputLogger.startCapture, OutputLogger.finishCapture.
  rewrite H8. simpl.
  destruct (OutputLogger.flush (OutputLogger.set_started false self2)) as [flushed self3].
  simpl in *. rewrite F7.
  assert (Hb : OutputLogger.buffer self3 = EmptyString).
  { destruct (OutputLogger.bufferState self2) eqn:Es.
    - rewrite (F9 eq_refl). simpl. now apply T2.
    - now apply F8.
    - now apply F8. }
  rewrite lines_out_app, lines_err_app, !str_join_app, F1, F2.
  change (held OutputLogger.STDOUT (OutputLogger.set_started false self2))
    with (held OutputLogger.STDOUT self2).
  change (held OutputLogger.STDERR (OutputLogger.set_started false self2))
    with (held OutputLogger.STDERR self2).
  rewrite !(held_tidy _ _ T2), H2, H3.
  conjs; try reflexivity; try assumption.
  do 3 f_equal. destruct sys as [o e]. simpl in *. now rewrite F5, F6, H6, H7.
Qed.

(** ** The git helpers *)

Lemma split_lines_line (line rest : string) :
  has_newline line = false ->
  split_lines (String.append line (String newline rest)) = line :: split_lines rest.
Proof.
  induction line as [|c line IH]; intros H; [reflexivity|].
  simpl in H. apply orb_false_elim in H as [Hc Hl].
  rewrite append_cons. simpl. rewrite Hc, (IH Hl). reflexivity.
Qed.

Lemma split_lines_branch_line current name rest :
  has_newline name = false ->
  split_lines (String.append (branch_line current name) rest) =
    String (if current then star else space) (String space name) :: split_lines rest.
Proof.
  intros H. unfold branch_line. rewrite !append_cons, append_assoc, append_cons.
  change (String.append EmptyString rest) with rest.
  change (String (if current then star else space)
            (String space (String.append name (String newline rest))))
    with (String.append (String (if current then star else space) (String space name))
            (String newline rest)).
  apply split_lines_line. simpl. destruct current; exact H.
Qed.

Lemma current_branch_of_others (others : list string) (rest : string) :
  Forall (fun name => has_newline name = false) others ->
  current_branch_of (split_lines (String.append (listing (map (pair false) others)) rest)) =
    current_branch_of (split_lines rest).
Proof.
  induction others as [|name others IH]; intros H; [reflexivity|].
  inversion H; subst. simpl listing.
  rewrite append_assoc, split_lines_branch_line by assumption.
  simpl. rewrite (IH ltac:(assumption)). now destruct name.
Qed.

(** X4.  [gitCurrentBranch] reads the branch back from what
    [git branch] prints: when the command succeeds and its output
    lists some branches unmarked, then a non-empty name marked with a
    star, then anything, the result is that name.  When the command
    fails, or when every branch listed is unmarked, it raises. *)
Theorem gitCurrentBranch_reads_listing :
  forall (ran : Ran) (before : list string) (name : string) (after : list (bool * string)),
    Forall (fun b => has_newline b = false) before ->
    has_newline name = false ->
    (code ran = 0 ->
     name <> EmptyString ->
     out ran = String.append (listing (map (pair false) before))
                 (String.append (branch_line true name) (listing after)) ->
     gitCurrentBranch ran = Some name) /\
    (code ran <> 0 -> gitCurrentBranch ran = None) /\
    (out ran = listing (map (pair false) before) -> gitCurrentBranch ran = None).
Proof.
  intros ran before name after Hb Hn. unfold gitCurrentBranch, runCmd.
  split; [|split].
  - intros Hc Hne Ho. rewrite Hc, Ho. simpl.
    rewrite current_branch_of_others, split_lines_branch_line by assumption.
    simpl. destruct name as [|c name]; [contradiction | reflexivity].
  - intros Hc. destruct (code ran =? 0) eqn:E; [lia | reflexivity].
  - intros Ho. destruct (negb (code ran =? 0) && negb false); [reflexivity|].
    rewrite Ho, <- (append_empty_r (listing _)).
    now rewrite current_branch_of_others.
Qed.

Lemma gitCurrentBranch_reads_listing_witness :
  gitCurrentBranch
    {| code := 0;
       out := listing [(false, "dev"); (true, "master"); (false, "topic")];
       err := EmptyString |} = Some "master".
Proof.
  apply (proj1 (gitCurrentBranch_reads_listing
                  {| code := 0;
                     out := listing [(false, "dev"); (true, "master"); (false, "topic")];
                     err := EmptyString |}
                  ["dev"] "master" [(false, "topic")]
                  ltac:(repeat constructor) eq_refl)); [reflexivity | discriminate | reflexivity].
Defined.

(** ** More on [wait] *)





(** ** [terminate] and the object it leaves *)






(** ** The feeder under any interleaving *)

(** One run of the feeder from a state in which the semaphore does not
    run ahead of the queue. *)
Lemma feeder_loop_fed_ok : forall (n : nat) (p : Process),
  _inputsem p = n -> fed_ok p ->
  (forall e, snd (fst (Process.feeder_loop n p)) <> Process.feeder_failed e) /\
  fed_ok (snd (Process.feeder_loop n p)).
Proof.
  induction n as [|n IH]; intros p Hn Hok; simpl.
  - split; [discriminate | exact Hok].
  - destruct (_pending_input p) as [|data rest] eqn:Hp.
    + destruct (_quit p) eqn:Hq; simpl.
      * split; [discriminate|]. now left.
      * destruct Hok as [Hok|Hok]; [congruence|]. rewrite Hn, Hp in Hok. simpl in Hok. lia.
    + specialize (IH (set_pending_input rest (set_inputsem n p)) eq_refl).
      destruct (Process.feeder_loop n _) as [[written st] p'] eqn:E. simpl in *.
      apply IH. destruct Hok as [Hok|Hok]; [now left | right].
      simpl. rewrite Hn, Hp in Hok. simpl in Hok. lia.
Qed.

Lemma call_keeps_fed_ok c : keeps fed_ok (call c).
Proof.
  destruct c; unfold call, reply; (apply keeps_bind; [|intros a; apply world_only_keeps, world_only_ret]).
  - apply steer_kill.
  - apply steer_wait.
    + intros s p H. exact H.
    + intros p _. now left.
  - apply steer_terminate.
    + intros s p H. exact H.
    + intros p _. now left.
  - intros p w H. exact H.
  - intros p w H. exact H.
  - intros p w H. exact H.
  - intros p w H. exact H.
  - intros p w H. unfold self_after, Process.write. step_m.
    destruct (stdin p); simpl; [|exact H].
    destruct H as [H|H]; [now left | right]. simpl. rewrite length_app. simpl. lia.
  - intros p w _. now left.
  - intros p w H. exact H.
  - intros p w H. exact H.
  - intros p w H. unfold self_after. simpl. now apply feeder_loop_fed_ok.
Qed.

(** X7.  The feeder never pops from an empty queue.  On an object in
    which the semaphore does not run ahead of the queue of pending
    input, as on every newly constructed one, and after any sequence
    of calls and thread turns in any order, the semaphore still does
    not run ahead of the queue unless the input is to be closed, so
    that a turn of the feeder ends blocked on the semaphore or with
    the stream closed, never with the [IndexError] of
    [pending.pop(0)]. *)
Theorem feeder_never_fails :
  forall (cs : list Call) (p : Process) (w : World),
    fed_ok p ->
    let p' := fst (snd (run call cs (p, w))) in
    fed_ok p' /\
    (forall e, snd (fst (Process._feeder p')) <> Process.feeder_failed e) /\
    (forall X prog i o e (x : X) w0 pr st,
        Process.__init__ prog i o e (x, w0) = (Return pr, st) -> fed_ok pr).
Proof.
  intros cs p w Hok p'.
  assert (Hok' : fed_ok p').
  { subst p'. now apply (keeps_run fed_ok call cs call_keeps_fed_ok). }
  conjs.
  - exact Hok'.
  - intros e. unfold Process._feeder. now apply feeder_loop_fed_ok.
  - intros X prog i o e x w0 pr st. unfold Process.__init__, Popen. step_m.
    destruct (spawn_error prog); [discriminate|].
    intros [= <- _]. right. simpl. lia.
Qed.

Lemma feeder_never_fails_witness :
  snd (fst (Process._feeder
              (fst (snd (run call [c_write "a"; c_feeder; c_closeinput; c_feeder]
                           (fresh_process true, boot)))))) <>
    Process.feeder_failed IndexError.
Proof.
  apply (feeder_never_fails [c_write "a"; c_feeder; c_closeinput; c_feeder]
           (fresh_process true) boot).
  right. simpl. lia.
Defined.





(** ** The reader threads *)

Lemma reader_stops (turn : string -> Process -> Process) :
  forall (reads rest : list string) (p : Process),
    forallb (fun data => negb (String.eqb data EmptyString)) reads = true ->
    Process._reader turn (reads ++ EmptyString :: rest) p =
      Process._reader turn (reads ++ [EmptyString]) p.
Proof.
  induction reads as [|data reads IH]; intros rest p Hne; simpl; [reflexivity|].
  simpl in Hne. apply andb_true_iff in Hne as [Hd Hrest].
  destruct (String.eqb data EmptyString); [reflexivity|]. now apply IH.
Qed.

Lemma str_join_snoc_empty (l : list string) :
  str_join (l ++ [EmptyString]) = str_join l.
Proof. rewrite str_join_app. simpl. now rewrite append_empty_r. Qed.

(** A stream read to its end: the chunks and the empty chunk of end of
    file are collected. *)
Lemma reader_out_step (reads : list string) (p : Process) :
  forallb (fun data => negb (String.eqb data EmptyString)) reads = true ->
  Process._reader Process.reader_out_turn (reads ++ [EmptyString]) p =
    set_collected_outdata (_collected_outdata p ++ reads ++ [EmptyString]) p.
Proof.
  revert p. induction reads as [|data rest IH]; intros p Hne; simpl; [reflexivity|].
  simpl in Hne. apply andb_true_iff in Hne as [Hd Hrest].
  destruct (String.eqb data EmptyString); [discriminate|].
  rewrite (IH _ Hrest). unfold Process.reader_out_turn, set_collected_outdata. simpl.
  now rewrite <- app_assoc.
Qed.

Lemma reader_err_step (reads : list string) (p : Process) :
  forallb (fun data => negb (String.eqb data EmptyString)) reads = true ->
  Process._reader Process.reader_err_turn (reads ++ [EmptyString]) p =
    set_collected_errdata (_collected_errdata p ++ reads ++ [EmptyString]) p.
Proof.
  revert p. induction reads as [|data rest IH]; intros p Hne; simpl; [reflexivity|].
  simpl in Hne. apply andb_true_iff in Hne as [Hd Hrest].
  destruct (String.eqb data EmptyString); [discriminate|].
  rewrite (IH _ Hrest). unfold Process.reader_err_turn, set_collected_errdata. simpl.
  now rewrite <- app_assoc.
Qed.

(** X9.  The reader threads collect up to the end of the stream and no
    further.  When the child's standard output yields the non-empty
    chunks [outs] and then the empty chunk of end of file, and its
    standard error likewise [errs], nothing that a later [os.read]
    would return is collected: [readboth] returns the text buffered
    before followed by [outs], joined, and the same for [errs]; a
    second [readboth] returns two empty strings; the queue of pending
    input and the exit status are untouched by the readers. *)
Theorem reader_collects_until_eof :
  forall (outs outs' errs errs' : list string) (p : Process) (w : World),
    forallb (fun data => negb (String.eqb data EmptyString)) outs = true ->
    forallb (fun data => negb (String.eqb data EmptyString)) errs = true ->
    let p' := Process._reader Process.reader_err_turn (errs ++ EmptyString :: errs')
                (Process._reader Process.reader_out_turn (outs ++ EmptyString :: outs') p) in
    fst (Process.readboth (p', w)) =
      Return (str_join (_collected_outdata p ++ outs),
              str_join (_collected_errdata p ++ errs)) /\
    fst (Process.readboth (snd (Process.readboth (p', w)))) =
      Return (EmptyString, EmptyString) /\
    snd (snd (Process.readboth (p', w))) = w /\
    _pending_input p' = _pending_input p /\ _exitstatus p' = _exitstatus p /\
    _inputsem p' = _inputsem p /\ _quit p' = _quit p.
Proof.
  intros outs outs' errs errs' p w Ho He p'. subst p'.
  rewrite (reader_stops _ outs outs' p Ho), (reader_stops _ errs errs' _ He).
  rewrite (reader_out_step outs p Ho), (reader_err_step errs _ He).
  unfold Process.readboth. step_m.
  rewrite !app_assoc, !str_join_snoc_empty. now conjs.
Qed.

Lemma reader_collects_until_eof_witness :
  fst (Process.readboth
         (Process._reader Process.reader_err_turn ["oops"; EmptyString; "late"]
            (Process._reader Process.reader_out_turn ["ab"; "c"; EmptyString; "late"]
               (fresh_process true)), boot)) =
    Return ("abc", "oops").
Proof.
  exact (proj1 (reader_collects_until_eof ["ab"; "c"] ["late"] ["oops"] ["late"]
                  (fresh_process true) boot eq_refl eq_refl)).
Defined.

(** ** The deadline guard around any function *)

(** X10.  The guard cleans up after any function.  Entered with no
    outer timer, around a function that returns or raises in any way
    and leaves the world in any state, [with_timeout] disarms the
    alarm and reinstalls the handler found on entry, as its last two
    system calls, and changes nothing else of what the function left.
    The function's value is returned; an exception of the function is
    passed on unchanged, also the alarm exception of another guard;
    only the alarm exception of this very call becomes [Timeout]. *)
Theorem guard_cleans_up :
  forall {X A} (timeout : Z) (func : M X A) (x x1 : X) (w w1 : World) (r : Result A),
    alarm_at w = None ->
    func (x, entered timeout w) = (r, (x1, w1)) ->
    stopped r = false ->
    exists r' w',
      with_timeout timeout func (x, w) = (r', (x1, w')) /\
      alarm_at w' = None /\ sigalrm w' = sigalrm w /\
      clock w' = clock w1 /\ children w' = children w1 /\
      syslog w' = syslog w1 ++ [sys_alarm 0; sys_signal (sigalrm w)] /\
      (forall v, r = Return v -> r' = Return v) /\
      (forall e, r = Raise e -> e <> SigAlarm (classes w) -> r' = Raise e) /\
      (r = Raise (SigAlarm (classes w)) -> r' = Raise Timeout).
Proof.
  intros X A timeout func x x1 w w1 r Ha Hf Hr.
  exists (guarded (classes w) r), (taken_down w w1).
  rewrite with_timeout_phases, Hf, (old_alarm_none w Ha).
  destruct r as [v|e|h]; [| |discriminate]; simpl.
  - rewrite <- app_assoc. conjs; try reflexivity; try discriminate. auto.
  - rewrite <- app_assoc. conjs; try reflexivity; try discriminate.
    + intros e' [= <-] Hne. destruct e; try reflexivity.
      destruct (Nat.eqb cls (classes w)) eqn:E; [|reflexivity].
      apply Nat.eqb_eq in E. congruence.
    + intros [= ->]. now rewrite Nat.eqb_refl.
Qed.

Lemma guard_cleans_up_witness :
  fst (with_timeout 3 (raise (A:=Z) ValueError) (tt, boot)) = Raise ValueError /\
  alarm_at (snd (snd (with_timeout 3 (raise (A:=Z) ValueError) (tt, boot)))) = None.
Proof.
  destruct (guard_cleans_up 3 (raise (A:=Z) ValueError) tt tt boot (entered 3 boot)
              (Raise ValueError) eq_refl eq_refl eq_refl)
    as (r' & w' & H & Ha & _ & _ & _ & _ & _ & He & _).
  rewrite H. split; [|exact Ha].
  apply (He ValueError eq_refl). discriminate.
Defined.

Lemma seconds_left_whole n : 1 <= n -> seconds_left (1000 * n) = n.
Proof.
  intros Hn. unfold seconds_left.
  replace (1000 * n) with (n * 1000) by lia.
  rewrite Z.mod_mul, Z.div_mul by lia. simpl. lia.
Qed.

Lemma old_alarm_entered timeout w :
  1 <= timeout -> old_alarm (entered timeout w) = timeout.
Proof.
  intros Ht. unfold old_alarm. simpl.
  destruct (timeout =? 0) eqn:E; [lia|].
  replace (clock w + 1000 * timeout - clock w) with (1000 * timeout) by lia.
  now apply seconds_left_whole.
Qed.

Lemma int_round_whole n : 0 <= n -> int_round (1000 * n) = n.
Proof.
  intros Hn. unfold int_round. rewrite Z.quot_div_nonneg by lia.
  replace (1000 * n + 500) with (500 + n * 1000) by lia.
  rewrite Z.div_add by lia. reflexivity.
Qed.

(** X11.  A guard inside a guard.  The inner guard disarms the outer
    timer while it runs and re-arms it, or raises the outer alarm,
    when it is left: the outer deadline cannot cut the function short.
    For durations of at least one second, with no timer pending
    before, and a function that needs [d] ms, the clock has advanced
    by the smaller of [d] and the inner duration when the guards are
    left, whatever the outer duration is.  The value is returned when
    the function finished within the inner duration and the seconds
    spent, rounded, are fewer than the outer duration; otherwise
    [Timeout] is raised.  Afterwards no alarm is armed and the handler
    is the one found at first. *)
Theorem nested_guard_defers_outer :
  forall {X A} (x : X) (w : World) (outer inner d : Z) (v : A),
    1 <= outer -> 1 <= inner -> 0 <= d -> alarm_at w = None ->
    exists w',
      with_timeout outer (with_timeout inner (sleep_then d v)) (x, w) =
        ((if (d <? 1000 * inner) && (int_round d <? outer)
          then Return v else Raise Timeout), (x, w')) /\
      clock w' = clock w + Z.min d (1000 * inner) /\
      alarm_at w' = None /\ sigalrm w' = sigalrm w.
Proof.
  intros X A x w outer inner d v Ho Hi Hd Ha.
  rewrite with_timeout_phases, (with_timeout_phases inner).
  rewrite sleep_then_guarded by assumption.
  rewrite (old_alarm_none w Ha), (old_alarm_entered outer w Ho).
  unfold remaining. rewrite (old_alarm_entered outer w Ho).
  destruct (outer =? 0) eqn:E0; [lia|].
  change (sigalrm (entered outer w)) with (alarm_handler (classes w)).
  change (classes (entered outer w)) with (S (classes w)).
  destruct (d <? 1000 * inner) eqn:Ed; cbn [andb].
  - replace (clock (set_clock (clock (entered outer w) + d)
                      (entered inner (entered outer w))) - clock (entered outer w))
      with d by (simpl; lia).
    destruct (outer - int_round d <=? 0) eqn:E1.
    + destruct (int_round d <? outer) eqn:E2; [lia|].
      cbn [guarded]. rewrite Nat.eqb_refl.
      eexists. split; [reflexivity|]. simpl. conjs; try reflexivity; lia.
    + destruct (int_round d <? outer) eqn:E2; [|lia].
      eexists. split; [reflexivity|]. simpl. conjs; try reflexivity; lia.
  - replace (clock (set_alarm_at None
                      (set_clock (clock (entered outer w) + 1000 * inner)
                         (entered inner (entered outer w)))) - clock (entered outer w))
      with (1000 * inner) by (simpl; lia).
    rewrite int_round_whole by lia.
    destruct (outer - inner <=? 0) eqn:E1.
    + cbn [guarded]. rewrite Nat.eqb_refl.
      eexists. split; [reflexivity|]. simpl. conjs; try reflexivity; lia.
    + cbn [guarded]. rewrite Nat.eqb_refl. cbn [guarded].
      eexists. split; [reflexivity|]. simpl. conjs; try reflexivity; lia.
Qed.

Lemma nested_guard_defers_outer_witness :
  fst (with_timeout 1 (with_timeout 5 (sleep_then 3000 7)) (tt, boot)) = Raise Timeout /\
  fst (with_timeout 5 (with_timeout 1 (sleep_then 3000 7)) (tt, boot)) = Raise Timeout /\
  fst (with_timeout 5 (with_timeout 4 (sleep_then 3000 7)) (tt, boot)) = Return 7.
Proof.
  destruct (nested_guard_defers_outer tt boot 1 5 3000 7
              ltac:(lia) ltac:(lia) ltac:(lia) eq_refl) as (w1 & H1 & Hc1 & _).
  destruct (nested_guard_defers_outer tt boot 5 1 3000 7
              ltac:(lia) ltac:(lia) ltac:(lia) eq_refl) as (w2 & H2 & _).
  destruct (nested_guard_defers_outer tt boot 5 4 3000 7
              ltac:(lia) ltac:(lia) ltac:(lia) eq_refl) as (w3 & H3 & _).
  rewrite H1, H2, H3. now conjs.
Defined.

(** ** The registry: reaping and isolation *)






(** A [reap] that returns has deleted its entry. *)
Lemma reap_removes procid (m : ProcessManager) (w : World) :
  fst (ProcessManager.reap procid (m, w)) = Return tt ->
  __procs (self_after (ProcessManager.reap procid) (m, w)) !! procid = None.
Proof.
  unfold self_after, ProcessManager.reap, bind.
  destruct (ProcessManager.wait procid WNOHANG (m, w)) as [[running|e|h] st1];
    try discriminate.
  destruct ((match running with
             | Some _ => ret tt
             | None => ProcessManager.kill procid SIGKILL
             end) st1) as [[u|e|h] st2]; try discriminate.
  destruct (ProcessManager.wait procid 0 st2) as [[status|e|h] [m3 w3]];
    try discriminate.
  unfold ProcessManager.del_proc. simpl.
  destruct (__procs m3 !! procid) as [proc3|]; [|discriminate].
  destruct (Process.__del__ (proc3, w3)) as [[u'|e|h] [proc4 w4]]; try discriminate.
  intros _. simpl. apply lookup_delete_eq.
Qed.

Lemma reap_each_removes : forall (procids : list Z) (m : ProcessManager) (w : World),
  fst (ProcessManager.reap_each procids (m, w)) = Return tt ->
  forall k, k ∈ procids ->
    __procs (self_after (ProcessManager.reap_each procids) (m, w)) !! k = None.
Proof.
  induction procids as [|procid rest IH]; intros m w Hret k Hk.
  - now apply elem_of_nil in Hk.
  - simpl in *. unfold self_after, bind in *.
    pose proof (reap_removes procid m w) as Hgone. unfold self_after in Hgone.
    destruct (ProcessManager.reap procid (m, w)) as [[[]|e|h] [m1 w1]];
      try discriminate.
    specialize (Hgone eq_refl). simpl in Hgone.
    destruct (decide (k ∈ rest)) as [Hin|Hout].
    + now apply IH.
    + apply elem_of_cons in Hk as [->|Hk]; [|contradiction].
      apply (reap_each_no_new_handle m1 rest m1 w1 (no_new_handle_refl m1)).
      exact Hgone.
Qed.

(** X13.  A [reapall] that returns has reaped every process: the
    registry is empty.  The last handle issued is as it was, so that
    handles issued later are still new. *)
Theorem reapall_empties_registry :
  forall (m : ProcessManager) (w : World),
    fst (ProcessManager.reapall (m, w)) = Return tt ->
    __procs (self_after ProcessManager.reapall (m, w)) = ∅ /\
    __last_id (self_after ProcessManager.reapall (m, w)) = __last_id m.
Proof.
  intros m w Hret.
  unfold ProcessManager.reapall in *. unfold self_after, bind, get_self in *.
  simpl in *. split.
  - apply map_empty. intros k.
    destruct (__procs m !! k) as [p|] eqn:E.
    + apply (reap_each_removes _ m w Hret).
      apply list_elem_of_fmap. exists (k, p). split; [reflexivity|].
      now apply elem_of_map_to_list.
    + now apply (reap_each_no_new_handle m _ m w (no_new_handle_refl m)).
  - apply (reap_each_no_new_handle m _ m w (no_new_handle_refl m)).
Qed.

Lemma reapall_empties_registry_witness :
  let st := snd (run serve [q_start stubborn; q_start quick]
                   (ProcessManager.__init__, boot)) in
  fst (ProcessManager.reapall st) = Return tt /\
  __procs (fst (snd (ProcessManager.reapall st))) = ∅.
Proof.
  intros st.
  assert (H : fst (ProcessManager.reapall st) = Return tt) by (vm_compute; reflexivity).
  split; [exact H|].
  destruct st as [m w].
  exact (proj1 (reapall_empties_registry m w H)).
Defined.

Lemma on_proc_same_entry {A} m0 k procid (method : M Process A) :
  k <> procid -> keeps (same_entry m0 k) (ProcessManager.on_proc procid method).
Proof.
  intros Hne m w [H1 H2]. unfold self_after, ProcessManager.on_proc. simpl.
  destruct (__procs m !! procid) as [proc|]; [|now split].
  destruct (method (proc, w)) as [r [proc' w']]. simpl.
  split; [|exact H2]. simpl. rewrite lookup_insert_ne by congruence. exact H1.
Qed.

Lemma del_proc_same_entry m0 k procid :
  k <> procid -> keeps (same_entry m0 k) (ProcessManager.del_proc procid).
Proof.
  intros Hne m w [H1 H2]. unfold self_after, ProcessManager.del_proc. simpl.
  destruct (__procs m !! procid) as [proc|]; [|now split].
  destruct (Process.__del__ (proc, w)) as [r [proc' w']]. simpl.
  split; [|exact H2]. simpl. rewrite lookup_delete_ne by congruence. exact H1.
Qed.

Lemma serve_same_entry m0 k q procid :
  handle_of q = Some procid -> k <> procid -> keeps (same_entry m0 k) (serve q).
Proof.
  intros Hq Hne.
  destruct q; simpl in Hq; try discriminate; injection Hq as ->;
    unfold serve, reply;
    (apply keeps_bind; [| intros; apply world_only_keeps, world_only_ret]);
    try (now apply on_proc_same_entry).
  unfold ProcessManager.reap, ProcessManager.wait, ProcessManager.kill.
  apply keeps_bind; [now apply on_proc_same_entry | intros running].
  apply keeps_bind.
  { destruct running; [apply world_only_keeps, world_only_ret
                      | now apply on_proc_same_entry]. }
  intros _. apply keeps_bind; [now apply on_proc_same_entry | intros _].
  now apply del_proc_same_entry.
Qed.

(** X14.  Requests do not reach across handles.  A request on one
    handle, whatever it is and however it ends, leaves the entry of
    every other handle and the last handle issued as they were;
    [start] leaves every entry but the one of the new handle as it
    was. *)
Theorem requests_leave_other_entries :
  forall (m : ProcessManager) (w : World) (k : Z),
    (forall q procid,
        handle_of q = Some procid -> k <> procid ->
        __procs (self_after (serve q) (m, w)) !! k = __procs m !! k /\
        __last_id (self_after (serve q) (m, w)) = __last_id m) /\
    (forall prog,
        k <> __last_id m + 1 ->
        __procs (self_after (serve (q_start prog)) (m, w)) !! k = __procs m !! k).
Proof.
  intros m w k. split.
  - intros q procid Hq Hne.
    now apply (serve_same_entry m k q procid Hq Hne m w).
  - intros prog Hne. unfold self_after.
    destruct (serve_start prog m w) as [(e & ->)|(proc & w' & ->)]; [reflexivity|].
    simpl. now rewrite lookup_insert_ne by congruence.
Qed.

Lemma requests_leave_other_entries_witness :
  let st := snd (run serve [q_start stubborn; q_start quick]
                   (ProcessManager.__init__, boot)) in
  __procs (self_after (serve (q_reap 1)) st) !! 2 = __procs (fst st) !! 2 /\
  is_Some (__procs (fst st) !! 2).
Proof.
  intros st. split; [|vm_compute; eauto].
  destruct st as [m w].
  exact (proj1 (proj1 (requests_leave_other_entries m w 2) (q_reap 1) 1 eq_refl
                  ltac:(lia))).
Defined.

(** ** Sample uses of the logger *)

Lemma capture_never_fails_witness :
  snd (uses [u_write_out "ab"; u_write_err (String newline "c"); u_flush_out]
         (OutputLogger.__init__
            {| OutputLogger.sys_stdout := OutputLogger.console_out;
               OutputLogger.sys_stderr := OutputLogger.console_err |})) = None.
Proof.
  exact (proj1 (capture_never_fails
                  {| OutputLogger.sys_stdout := OutputLogger.console_out;
                     OutputLogger.sys_stderr := OutputLogger.console_err |}
                  [u_write_out "ab"; u_write_err (String newline "c"); u_flush_out])).
Defined.

Lemma capture_logs_all_text_witness :
  forallb one_line
    (fst (fst (uses [u_write_out "ab"; u_write_err (String newline "c"); u_flush_out]
                 (OutputLogger.__init__
                    {| OutputLogger.sys_stdout := OutputLogger.console_out;
                       OutputLogger.sys_stderr := OutputLogger.console_err |})))) = true.
Proof.
  exact (proj1 (proj2 (proj2 (capture_logs_all_text
                  {| OutputLogger.sys_stdout := OutputLogger.console_out;
                     OutputLogger.sys_stderr := OutputLogger.console_err |}
                  [u_write_out "ab"; u_write_err (String newline "c"); u_flush_out])))).
Defined.

Lemma capture_round_trip_witness :
  exists self1 captured,
    OutputLogger.startCapture
      (OutputLogger.__init__
         {| OutputLogger.sys_stdout := OutputLogger.console_out;
            OutputLogger.sys_stderr := OutputLogger.console_err |})
      {| OutputLogger.sys_stdout := OutputLogger.console_out;
         OutputLogger.sys_stderr := OutputLogger.console_err |} = inl (self1, captured) /\
    snd (uses [u_write_out "ab"; u_write_err (String newline "c")] self1) = None.
Proof.
  destruct (capture_round_trip
              {| OutputLogger.sys_stdout := OutputLogger.console_out;
                 OutputLogger.sys_stderr := OutputLogger.console_err |}
              [u_write_out "ab"; u_write_err (String newline "c")])
    as (self1 & effects & self2 & flushed & self3 & H1 & H2 & _).
  exists self1. eexists. split; [exact H1|]. now rewrite H2.
Defined.

(** ** Naming the run directory *)

Lemma append_cancel_l (a x y : string) :
  String.append a x = String.append a y -> x = y.
Proof.
  induction a as [|c a IH]; intros H.
  - now rewrite !append_empty_l in H.
  - rewrite !append_cons in H. injection H as H. auto.
Qed.

Lemma candidate_inj basename i j :
  GitResultsManager.candidate basename i = GitResultsManager.candidate basename j -> i = j.
Proof.
  unfold GitResultsManager.candidate. intros H. apply append_cancel_l in H.
  destruct i as [|i], j as [|j]; simpl in H; try reflexivity; try discriminate.
  rewrite !append_cons, !append_empty_l in H. injection H as H. now apply pretty_nat_inj in H.
Qed.

(** Whether [os.path.join] takes [b] for an absolute path. *)
Lemma path_join_relative a b :
  match b with String c _ => Ascii.eqb c slash | EmptyString => false end = false ->
  path_join a b =
    String.append
      (if String.eqb a EmptyString || endswith_slash a then a
       else String.append a (String slash EmptyString)) b.
Proof.
  intros Hb. unfold path_join. destruct b as [|c b].
  - destruct (String.eqb a EmptyString || endswith_slash a);
      now rewrite append_empty_r.
  - rewrite Hb. destruct (String.eqb a EmptyString || endswith_slash a); [reflexivity|].
    now rewrite append_assoc, append_cons, append_empty_l.
Qed.

Lemma candidate_head basename i j :
  match GitResultsManager.candidate basename i with
  | String c _ => Ascii.eqb c slash | EmptyString => false end =
  match GitResultsManager.candidate basename j with
  | String c _ => Ascii.eqb c slash | EmptyString => false end.
Proof.
  unfold GitResultsManager.candidate. destruct basename as [|c b].
  - rewrite !append_empty_l. now destruct i, j.
  - now rewrite !append_cons.
Qed.

(** No two turns of the loop try the same path. *)
Lemma attempt_inj resultsSubdir basename i j :
  attempt resultsSubdir basename i = attempt resultsSubdir basename j -> i = j.
Proof.
  unfold attempt. intros H. apply (candidate_inj basename).
  pose proof (candidate_head basename i j) as Hh.
  destruct (match GitResultsManager.candidate basename i with
            | String c _ => Ascii.eqb c slash | EmptyString => false end) eqn:Ei.
  - symmetry in Hh.
    destruct (GitResultsManager.candidate basename i) as [|ci si]; [discriminate|].
    destruct (GitResultsManager.candidate basename j) as [|cj sj]; [discriminate|].
    unfold path_join in H. now rewrite Ei, Hh in H.
  - symmetry in Hh. rewrite !path_join_relative in H by assumption.
    now apply append_cancel_l in H.
Qed.

Lemma mkdir_loop_finds env resultsSubdir basename :
  forall (k fuel ii : nat),
    (forall j, (ii <= j < ii + k)%nat ->
       GitResultsManager.mkdir_raises env (attempt resultsSubdir basename j) = true) ->
    GitResultsManager.mkdir_raises env (attempt resultsSubdir basename (ii + k)) = false ->
    (k < fuel)%nat ->
    GitResultsManager.mkdir_loop fuel env resultsSubdir basename ii =
      (map (fun ii => GitResultsManager.notice (GitResultsManager.candidate basename ii))
         (seq ii k) ++ [GitResultsManager.ev_mkdir (attempt resultsSubdir basename (ii + k))],
       Some (GitResultsManager.candidate basename (ii + k))).
Proof.
  induction k as [|k IH]; intros fuel ii Hbusy Hfree Hfuel;
    (destruct fuel as [|fuel]; [lia|]); simpl.
  - rewrite Nat.add_0_r in Hfree. fold (attempt resultsSubdir basename ii).
    rewrite Hfree. now rewrite Nat.add_0_r.
  - fold (attempt resultsSubdir basename ii). rewrite (Hbusy ii) by lia.
    rewrite (IH fuel (S ii)).
    + now rewrite Nat.add_succ_r.
    + intros j Hj. apply Hbusy. lia.
    + now rewrite Nat.add_succ_r in Hfree.
    + lia.
Qed.

Lemma mkdir_loop_never env resultsSubdir basename :
  (forall j, GitResultsManager.mkdir_raises env (attempt resultsSubdir basename j) = true) ->
  forall (fuel ii : nat),
    GitResultsManager.mkdir_loop fuel env resultsSubdir basename ii =
      (map (fun ii => GitResultsManager.notice (GitResultsManager.candidate basename ii))
         (seq ii fuel), None).
Proof.
  intros Hbusy. induction fuel as [|fuel IH]; intros ii; simpl; [reflexivity|].
  fold (attempt resultsSubdir basename ii). now rewrite Hbusy, IH.
Qed.

(** The first turn at which a test fails, if there is one. *)
Lemma least_false (P : nat -> bool) (n : nat) :
  P n = false -> exists k, (k <= n)%nat /\ P k = false /\ forall j, (j < k)%nat -> P j = true.
Proof.
  induction n as [n IH] using lt_wf_ind. intros Hn.
  destruct (forallb P (seq 0 n)) eqn:E.
  - exists n. split; [lia|]. split; [exact Hn|].
    intros j Hj. rewrite forallb_forall in E. apply E, in_seq. lia.
  - assert (Hex : exists j, (j < n)%nat /\ P j = false).
    { clear -E. induction n as [|n IH]; [discriminate|].
      rewrite seq_S, forallb_app in E. simpl in E.
      destruct (forallb P (seq 0 n)).
      - exists n. split; [lia|]. now destruct (P n).
      - destruct (IH eq_refl) as (j & Hj & Hp). exists j. split; [lia | exact Hp]. }
    destruct Hex as (j & Hj & Hp).
    destruct (IH j Hj Hp) as (k & Hk & Hk1 & Hk2).
    exists k. split; [lia|]. now split.
Qed.

(** Among the first [size taken + 1] paths tried there is one that is
    not in [taken]. *)
Lemma some_attempt_free resultsSubdir basename (taken : gset string) :
  exists k, (k <= size taken)%nat /\ attempt resultsSubdir basename k ∉ taken.
Proof.
  destruct (decide (Forall (fun k => attempt resultsSubdir basename k ∈ taken)
                      (seq 0 (S (size taken))))) as [Hall|Hnot].
  - exfalso.
    set (tried := attempt resultsSubdir basename <$> seq 0 (S (size taken))).
    assert (Hnd : NoDup tried).
    { apply NoDup_fmap_2; [|apply NoDup_seq].
      intros i j. apply attempt_inj. }
    assert (Hsub : (list_to_set tried : gset string) ⊆ taken).
    { intros p Hp. apply elem_of_list_to_set in Hp.
      apply list_elem_of_fmap in Hp as (k & -> & Hk).
      rewrite Forall_forall in Hall. now apply Hall. }
    apply subseteq_size in Hsub.
    rewrite size_list_to_set in Hsub by exact Hnd.
    unfold tried in Hsub. rewrite length_fmap, length_seq in Hsub. lia.
  - apply not_Forall_Exists in Hnot; [|intros k; apply _].
    apply Exists_exists in Hnot as (k & Hk & Hfree).
    exists k. split; [|exact Hfree].
    apply elem_of_seq in Hk. lia.
Qed.

(** X15.  [start] names the run directory after the first free
    candidate.  On an object that has no run in progress, with the
    results directory in place and a description without spaces, when
    the base name is in hand and [os.mkdir] raises for the base name
    and for its suffixed forms [_1] to [_k-1] but not for the next
    one, [start] prints one notice for each name that failed, creates
    exactly one directory, the one of the first name that did not
    fail, and takes that name: [rundir] is the path it created.  The
    path created is none of those that failed, and no name is tried
    twice. *)
Theorem start_names_first_free_directory :
  forall (env : GitResultsManager.Env) (description : string) (d : bool)
         (self : GitResultsManager.t) (basename : string)
         (events : list GitResultsManager.Event) (k fuel : nat),
    let dir := GitResultsManager._resultsSubdir self in
    GitResultsManager.isdir env dir = true ->
    has_space description = false ->
    GitResultsManager._name self = None ->
    GitResultsManager.basename_of env description = (events, inl basename) ->
    (forall j, (j < k)%nat ->
       GitResultsManager.mkdir_raises env (attempt dir basename j) = true) ->
    GitResultsManager.mkdir_raises env (attempt dir basename k) = false ->
    (k < fuel)%nat ->
    let self' := GitResultsManager.set_name (GitResultsManager.candidate basename k)
                   (GitResultsManager.set_diary d self) in
    GitResultsManager.start_named fuel env description d self =
      (events ++ notices basename k ++ [GitResultsManager.ev_mkdir (attempt dir basename k)],
       self', GitResultsManager.Named) /\
    (GitResultsManager.candidate basename k <> EmptyString ->
     GitResultsManager.rundir self' = Some (attempt dir basename k)) /\
    (forall j, (j < k)%nat -> attempt dir basename j <> attempt dir basename k) /\
    (forall i j, attempt dir basename i = attempt dir basename j -> i = j).
Proof.
  intros env description d self basename events k fuel dir Hdir Hsp Hname Hbase
    Hbusy Hfree Hfuel self'.
  conjs.
  - unfold GitResultsManager.start_named. fold dir.
    rewrite Hdir, Hsp, Hname, Hbase. simpl.
    fold dir.
    rewrite (mkdir_loop_finds env dir basename k fuel 0); try assumption.
    + reflexivity.
    + intros j Hj. apply Hbusy. lia.
  - intros Hne. unfold GitResultsManager.rundir. simpl.
    destruct (String.eqb (GitResultsManager.candidate basename k) EmptyString) eqn:E;
      [|reflexivity].
    apply String.eqb_eq in E. contradiction.
  - intros j Hj Heq. apply attempt_inj in Heq. lia.
  - intros i j. apply attempt_inj.
Qed.

(** X16.  Whether [start] comes to name the run directory.  If
    [os.mkdir] raises exactly for the paths of a finite set, that is,
    only because the path exists, [start] finds a name after at most
    as many failed attempts as the set has elements, and the directory
    it creates is not in the set.  If [os.mkdir] raises for every name
    tried, for whatever reason, [start] neither returns nor raises: it
    prints a notice and tries the next suffix, without end. *)
Theorem start_finds_name_or_loops :
  forall (env : GitResultsManager.Env) (description : string) (d : bool)
         (self : GitResultsManager.t) (basename : string)
         (events : list GitResultsManager.Event),
    let dir := GitResultsManager._resultsSubdir self in
    GitResultsManager.isdir env dir = true ->
    has_space description = false ->
    GitResultsManager._name self = None ->
    GitResultsManager.basename_of env description = (events, inl basename) ->
    (forall (taken : gset string),
        (forall p, GitResultsManager.mkdir_raises env p = true <-> p ∈ taken) ->
        exists k,
          (k <= size taken)%nat /\
          (attempt dir basename k ∉ taken) /\
          forall fuel, (size taken < fuel)%nat ->
            GitResultsManager.start_named fuel env description d self =
              (events ++ notices basename k ++
                 [GitResultsManager.ev_mkdir (attempt dir basename k)],
               GitResultsManager.set_name (GitResultsManager.candidate basename k)
                 (GitResultsManager.set_diary d self),
               GitResultsManager.Named)) /\
    ((forall ii, GitResultsManager.mkdir_raises env (attempt dir basename ii) = true) ->
     forall fuel,
       GitResultsManager.start_named fuel env description d self =
         (events ++ notices basename fuel, GitResultsManager.set_diary d self,
          GitResultsManager.Looping)).
Proof.
  intros env description d self basename events dir Hdir Hsp Hname Hbase. split.
  - intros taken Htaken.
    destruct (some_attempt_free dir basename taken) as (n & Hn & Hfree).
    assert (Hn' : GitResultsManager.mkdir_raises env (attempt dir basename n) = false).
    { destruct (GitResultsManager.mkdir_raises env (attempt dir basename n)) eqn:E;
        [|reflexivity]. apply Htaken in E. contradiction. }
    destruct (least_false (fun ii => GitResultsManager.mkdir_raises env (attempt dir basename ii))
                n Hn') as (k & Hk & Hk1 & Hk2).
    exists k. split; [lia|]. split.
    + intros Hin. apply Htaken in Hin. congruence.
    + intros fuel Hfuel.
      unfold GitResultsManager.start_named. fold dir.
      rewrite Hdir, Hsp, Hname, Hbase. simpl.
      fold dir.
      rewrite (mkdir_loop_finds env dir basename k fuel 0); try assumption.
      * reflexivity.
      * intros j Hj. apply Hk2. lia.
      * lia.
  - intros Hbusy fuel.
    unfold GitResultsManager.start_named. fold dir.
    rewrite Hdir, Hsp, Hname, Hbase. simpl.
    fold dir.
    now rewrite (mkdir_loop_never env dir basename Hbusy fuel 0).
Qed.

Lemma start_names_first_free_directory_witness :
  let env := env_with_git ["results/250101_120000_abc1234_master_run"] in
  GitResultsManager.start_named 2 env "run" true (GitResultsManager.__init__ None) =
    ([GitResultsManager.notice "250101_120000_abc1234_master_run";
      GitResultsManager.ev_mkdir "results/250101_120000_abc1234_master_run_1"],
     GitResultsManager.set_name "250101_120000_abc1234_master_run_1"
       (GitResultsManager.set_diary true (GitResultsManager.__init__ None)),
     GitResultsManager.Named).
Proof.
  intros env.
  assert (Hbusy : forall j, (j < 1)%nat ->
            GitResultsManager.mkdir_raises env
              (attempt "results" "250101_120000_abc1234_master_run" j) = true).
  { intros j Hj. assert (j = 0%nat) as -> by lia. reflexivity. }
  exact (proj1 (start_names_first_free_directory env "run" true
                  (GitResultsManager.__init__ None)
                  "250101_120000_abc1234_master_run" [] 1 2
                  eq_refl eq_refl eq_refl eq_refl Hbusy eq_refl ltac:(lia))).
Defined.

Lemma start_finds_name_or_loops_witness :
  let env := env_without_git ["results/250101_120000"] in
  exists k,
    (k <= 1)%nat /\
    snd (GitResultsManager.start_named 2 env EmptyString true
           (GitResultsManager.__init__ None)) = GitResultsManager.Named.
Proof.
  intros env.
  assert (Htaken : forall p, GitResultsManager.mkdir_raises env p = true <->
                             p ∈ ({["results/250101_120000"]} : gset string)).
  { intros p. simpl. rewrite orb_false_r, String.eqb_eq. symmetry. apply elem_of_singleton. }
  destruct (proj1 (start_finds_name_or_loops env EmptyString true
                     (GitResultsManager.__init__ None) "250101_120000" []
                     eq_refl eq_refl eq_refl eq_refl) _ Htaken) as (k & Hk & _ & Hrun).
  rewrite size_singleton in Hk, Hrun.
  exists k. split; [exact Hk|]. rewrite (Hrun 2%nat) by lia. reflexivity.
Defined.

Lemma mkdir_loop_shape env resultsSubdir basename :
  forall (fuel ii : nat),
    match GitResultsManager.mkdir_loop fuel env resultsSubdir basename ii with
    | (events, Some name) =>
        exists before,
          events = before ++ [GitResultsManager.ev_mkdir (path_join resultsSubdir name)] /\
          forallb creates_nothing before = true /\
          GitResultsManager.mkdir_raises env (path_join resultsSubdir name) = false
    | (events, None) => forallb creates_nothing events = true
    end.
Proof.
  induction fuel as [|fuel IH]; intros ii; simpl; [reflexivity|].
  destruct (GitResultsManager.mkdir_raises env _) eqn:E.
  - specialize (IH (S ii)).
    destruct (GitResultsManager.mkdir_loop fuel env resultsSubdir basename (S ii))
      as [events [name|]]; [|exact IH].
    destruct IH as (before & -> & Hb & Hfree).
    exists (GitResultsManager.notice (GitResultsManager.candidate basename ii) :: before).
    now conjs.
  - exists []. now conjs.
Qed.

Lemma basename_of_creates_nothing env description :
  forallb creates_nothing (fst (GitResultsManager.basename_of env description)) = true.
Proof.
  unfold GitResultsManager.basename_of.
  destruct (gitWorks _); [|reflexivity].
  destruct (GitResultsManager.gitLastCommit env); [|reflexivity].
  destruct (runCmd _ _); [|reflexivity].
  now destruct (gitCurrentBranch _).
Qed.

Lemma basename_of_errors env description e :
  snd (GitResultsManager.basename_of env description) = inr e ->
  e = GitResultsManager.CommandError \/ e = GitResultsManager.NoCurrentBranch.
Proof.
  unfold GitResultsManager.basename_of.
  destruct (gitWorks _); [|discriminate].
  destruct (GitResultsManager.gitLastCommit env); [|intros [= <-]; now left].
  destruct (runCmd _ _); [|intros [= <-]; now left].
  destruct (gitCurrentBranch _); [discriminate | intros [= <-]; now right].
Qed.

(** X17.  [start] creates a directory only when all its checks have
    passed, and never more than one.  It reaches the point where the
    run is named only with the results directory in place, a
    description without spaces and no run in progress; the last thing
    it did is then the one successful [os.mkdir], under the results
    directory, at a path for which [os.mkdir] did not raise, and the
    name it takes is the one of that path.  The checks are made in
    this order: a missing results directory, a space in the
    description, a run in progress, which ends in the
    [AttributeError] of the missing method [finish].  Whenever
    [start] raises, and as long as its loop runs, no directory has
    been created and the name of the object is what it was. *)
Theorem start_creates_one_directory_or_none :
  forall (fuel : nat) (env : GitResultsManager.Env) (description : string) (d : bool)
         (self : GitResultsManager.t),
    let dir := GitResultsManager._resultsSubdir self in
    let events := fst (fst (GitResultsManager.start_named fuel env description d self)) in
    let self' := snd (fst (GitResultsManager.start_named fuel env description d self)) in
    let outcome := snd (GitResultsManager.start_named fuel env description d self) in
    (outcome = GitResultsManager.Named ->
     GitResultsManager.isdir env dir = true /\ has_space description = false /\
     GitResultsManager._name self = None /\
     exists before name,
       events = before ++ [GitResultsManager.ev_mkdir (path_join dir name)] /\
       forallb creates_nothing before = true /\
       GitResultsManager.mkdir_raises env (path_join dir name) = false /\
       GitResultsManager._name self' = Some name /\
       GitResultsManager.diary self' = Some d) /\
    (outcome <> GitResultsManager.Named ->
     forallb creates_nothing events = true /\
     GitResultsManager._name self' = GitResultsManager._name self) /\
    (outcome = GitResultsManager.Failed GitResultsManager.NoResultsDirectory <->
     GitResultsManager.isdir env dir = false) /\
    (GitResultsManager.isdir env dir = true ->
     (outcome = GitResultsManager.Failed GitResultsManager.SpaceInDescription <->
      has_space description = true)) /\
    (GitResultsManager.isdir env dir = true -> has_space description = false ->
     (outcome = GitResultsManager.Failed GitResultsManager.NoAttribute_finish <->
      GitResultsManager._name self <> None)).
Proof.
  intros fuel env description d self dir events self' outcome.
  subst events self' outcome dir. unfold GitResultsManager.start_named.
  set (dir := GitResultsManager._resultsSubdir self).
  destruct (GitResultsManager.isdir env dir) eqn:Hdir; simpl.
  2: { conjs; try easy. }
  destruct (has_space description) eqn:Hsp; simpl.
  { conjs; try easy. }
  destruct (GitResultsManager._name self) as [name0|] eqn:Hname; simpl.
  { conjs; try easy. }
  pose proof (basename_of_creates_nothing env description) as Hbase.
  pose proof (basename_of_errors env description) as Herr.
  destruct (GitResultsManager.basename_of env description) as [evs [basename|e]];
    simpl in Hbase, Herr.
  { fold dir. pose proof (mkdir_loop_shape env dir basename fuel 0) as Hloop.
    destruct (GitResultsManager.mkdir_loop fuel env dir basename 0) as [more [name|]];
      simpl.
    - destruct Hloop as (before & -> & Hb & Hfree).
      conjs; try easy.
      intros _. conjs; try reflexivity.
      exists (evs ++ before), name. rewrite <- app_assoc, forallb_app, Hbase, Hb.
      now conjs.
    - conjs; try easy.
      intros _. now rewrite forallb_app, Hbase, Hloop. }
  conjs; try easy.
  - split; [|easy]. simpl. intros [= ->]. now destruct (Herr _ eq_refl).
  - intros _. split; [|easy]. simpl. intros [= ->]. now destruct (Herr _ eq_refl).
  - intros _ _. split; [|easy]. simpl. intros [= ->]. now destruct (Herr _ eq_refl).
Qed.

Lemma start_creates_one_directory_or_none_witness :
  snd (GitResultsManager.start_named 2 (env_with_git []) "first run" true
         (GitResultsManager.__init__ None)) =
    GitResultsManager.Failed GitResultsManager.SpaceInDescription /\
  snd (GitResultsManager.start_named 2 (env_with_git []) "again" true
         (GitResultsManager.set_name "250101_115900_abc1234_master"
            (GitResultsManager.__init__ None))) =
    GitResultsManager.Failed GitResultsManager.NoAttribute_finish.
Proof.
  split.
  - apply (proj1 (proj2 (proj2 (proj2
             (start_creates_one_directory_or_none 2 (env_with_git []) "first run" true
                (GitResultsManager.__init__ None))))) eq_refl).
    reflexivity.
  - apply (proj2 (proj2 (proj2 (proj2
             (start_creates_one_directory_or_none 2 (env_with_git []) "again" true
                (GitResultsManager.set_name "250101_115900_abc1234_master"
                   (GitResultsManager.__init__ None)))))) eq_refl eq_refl).
    discriminate.
Defined.
